(** * sift-agent: the ingestion pipeline, embedded and verified

  A shallow embedding of the Go packages [db] (File-Log store),
  [api] (uploader), [core] (orchestrator, stability verifier,
  Done-Mover) and of the legacy [cmd.uploadFile] variant that carries
  the integrity handshake.

  Conventions of the embedding:
  - Go [int64] / [int] values are [Z]; the only arithmetic the code
    performs on them is comparison and [error_count + 1].
  - Go maps and the SQLite table [file_log] (primary key [file_path])
    are [gmap string _].
  - Everything the code obtains from the outside (HTTP responses,
    [stat] results of a file that other processes write, the outcome
    of [select] on [ctx.Done()], the clock) is an explicit input.
  - SQL statements are assumed to execute (the code only logs a
    failed [Exec]). *)

From Stdlib Require Import ZArith Lia Ascii String.
From stdpp Require Import gmap strings list fin_maps pretty.

Local Open Scope string_scope.
Local Open Scope list_scope.
Local Open Scope Z_scope.
#[local] Set Warnings "-register-all".

(** ** Package [db]: the File-Log store *)

Module db.

Definition StatusPending : string := "PENDING".
Definition StatusUploaded : string := "UPLOADED".
Definition StatusVerified : string := "VERIFIED".
Definition StatusCorrupt : string := "CORRUPT".
Definition StatusFailed : string := "FAILED".

(** One row of table [file_log]; [file_path] is the key of the map.
    [tenant_id] is never written by any statement, hence stays NULL. *)
Record row := Row {
  file_hash : string;
  mod_time : Z;
  file_size : Z;
  status : string;
  last_attempt_at : Z;
  tenant_id : option string;
  error_count : Z
}.

(** [SELECT status, mod_time, file_hash, error_count ... WHERE file_path = ?];
    [sql.ErrNoRows] yields the zero tuple. *)
Definition GetFileRecord (t : gmap string row) (path : string)
  : string * Z * string * Z :=
  match t !! path with
  | Some r => (status r, mod_time r, file_hash r, error_count r)
  | None => ("", 0, "", 0)
  end.

(** [INSERT ... VALUES (?, ?, ?, ?, ?, ?, 0) ON CONFLICT(file_path) DO UPDATE SET ...]:
    on conflict every column but [tenant_id] is overwritten and
    [error_count] is set to 0. *)
Definition UpdateFileStatus (now : Z) (path st hash : string) (modTime size : Z)
    (t : gmap string row) : gmap string row :=
  match t !! path with
  | Some r =>
      <[path := {| file_hash := hash; mod_time := modTime; file_size := size;
                   status := st; last_attempt_at := now;
                   tenant_id := tenant_id r; error_count := 0 |}]> t
  | None =>
      <[path := {| file_hash := hash; mod_time := modTime; file_size := size;
                   status := st; last_attempt_at := now;
                   tenant_id := None; error_count := 0 |}]> t
  end.

(** [UPDATE file_log SET error_count = error_count + 1, last_attempt_at = ?
    WHERE file_path = ?]: touches no row when the path is absent. *)
Definition IncrementError (now : Z) (path : string) (t : gmap string row)
  : gmap string row :=
  match t !! path with
  | Some r =>
      <[path := {| file_hash := file_hash r; mod_time := mod_time r;
                   file_size := file_size r; status := status r;
                   last_attempt_at := now; tenant_id := tenant_id r;
                   error_count := error_count r + 1 |}]> t
  | None => t
  end.

(** [UPDATE file_log SET status = ?, last_attempt_at = ? WHERE file_path = ?]. *)
Definition MarkCorrupt (now : Z) (path : string) (t : gmap string row)
  : gmap string row :=
  match t !! path with
  | Some r =>
      <[path := {| file_hash := file_hash r; mod_time := mod_time r;
                   file_size := file_size r; status := StatusCorrupt;
                   last_attempt_at := now; tenant_id := tenant_id r;
                   error_count := error_count r |}]> t
  | None => t
  end.

(** [DELETE FROM file_log [WHERE file_path = ?]]. *)
Definition ResetHistory (targetPath : string) (t : gmap string row)
  : gmap string row :=
  if decide (targetPath ≠ "") then delete targetPath t else ∅.

(** [n] consecutive calls of [IncrementError] on one path; the clock
    value of each call is irrelevant to the columns read back, so one
    value is reused. *)
Fixpoint increment_times (n : nat) (now : Z) (path : string)
    (t : gmap string row) : gmap string row :=
  match n with
  | O => t
  | S k => IncrementError now path (increment_times k now path t)
  end.

End db.


(** ** Package [config] *)

Module config.

(** [RemoteConfig].  The four duration fields are strings handed to
    [time.ParseDuration]; the record holds what that call returns
    (nanoseconds, [None] when it reports an error). *)
Record RemoteConfig := {
  Name : string;
  Path : string;
  Endpoint : string;
  Key : string;
  StabilityThreshold : Z;
  CheckInterval : option Z;
  StabilityTimeout : option Z;
  ConcurrencyLimit : Z;
  PollingInterval : option Z;
  SettlingDelay : option Z;
  DisableFsnotify : bool
}.

End config.

(** ** The world a worker acts on *)

Definition Second : Z := 1000000000.
Definition Minute : Z := 60 * Second.

(** [os.FileInfo] of a regular file: [Size()] and [ModTime().UnixNano()]. *)
Record FileInfo := { fi_size : Z; fi_mod : Z }.

(** Outbound actions, in the order they are performed. *)
Inductive Effect :=
| EQuery (path : string)                 (* db.GetFileRecord *)
| EExec (path : string)                  (* a writing File-Log statement *)
| ESleep (d : Z)                         (* a [time.After d] that elapsed *)
| EHash (path : string)                  (* file opened and fed to SHA-256 *)
| EPost (url file : string)              (* one multipart POST *)
| EMkdirAll (dir : string)
| ERename (src dst : string) (ok : bool).

Record World := {
  filelog : gmap string db.row;          (* the process-wide [dbInstance] *)
  files : gmap string FileInfo;          (* regular files on disk *)
  dirs : gset string;                    (* directories on disk *)
  trace : list Effect
}.

Definition log (e : Effect) (w : World) : World :=
  {| filelog := filelog w; files := files w; dirs := dirs w;
     trace := trace w ++ [e] |}.

Definition set_filelog (t : gmap string db.row) (w : World) : World :=
  {| filelog := t; files := files w; dirs := dirs w; trace := trace w |}.

Definition set_files (f : gmap string FileInfo) (w : World) : World :=
  {| filelog := filelog w; files := f; dirs := dirs w; trace := trace w |}.

Definition set_dirs (d : gset string) (w : World) : World :=
  {| filelog := filelog w; files := files w; dirs := d; trace := trace w |}.

(** *** [path/filepath] on cleaned, slash-separated paths
    (what [filepath.Abs] returns on Unix). *)

Definition is_sep (c : ascii) : bool := Ascii.eqb c "/"%char.

(** Splits at the last separator: [(before, after)]. *)
Fixpoint split_last (s : string) : option (string * string) :=
  match s with
  | EmptyString => None
  | String c r =>
      match split_last r with
      | Some (d, b) => Some (String c d, b)
      | None => if is_sep c then Some (EmptyString, r) else None
      end
  end.

Definition Dir (p : string) : string :=
  match split_last p with
  | Some (d, _) => if decide (d = "") then "/" else d
  | None => "."
  end.

Definition Base (p : string) : string :=
  match split_last p with
  | Some (_, b) => if decide (b = "") then "/" else b
  | None => if decide (p = "") then "." else p
  end.

Definition Join (a b : string) : string :=
  if decide (a = "/") then "/" +:+ b else a +:+ "/" +:+ b.

(** *** The operating system, as far as the Done-Mover sees it *)

Record MoveEnv := {
  mkdir_ok : bool;          (* [os.MkdirAll] is permitted *)
  unix_now : Z;             (* [time.Now().Unix()] *)
  rename_refused : bool     (* the OS refuses the rename (access denied, ...) *)
}.

(** [os.Stat(p)] returns no error. *)
Definition exists_on_disk (w : World) (p : string) : bool :=
  bool_decide (is_Some (files w !! p)) || bool_decide (p ∈ dirs w).

(** [os.MkdirAll(dir, 0755)]; its error is dropped by the caller. *)
Definition MkdirAll (me : MoveEnv) (dir : string) (w : World) : World :=
  let w := log (EMkdirAll dir) w in
  if mkdir_ok me && negb (bool_decide (is_Some (files w !! dir)))
  then set_dirs ({[dir]} ∪ dirs w) w
  else w.

(** [os.Rename(src, dst)] of a regular file: [None] is the error. *)
Definition Rename (me : MoveEnv) (src dst : string) (w : World) : option World :=
  match files w !! src with
  | Some fi =>
      if negb (rename_refused me)
         && bool_decide (Dir dst ∈ dirs w)
         && negb (bool_decide (dst ∈ dirs w))
      then Some (set_files (<[dst := fi]> (delete src (files w))) w)
      else None
  | None => None
  end.

(** *** HTTP *)

(** A parsed JSON document; an object keeps its members in document order. *)
Inductive json :=
| JNull
| JBool (b : bool)
| JNumber (n : Z)
| JString (s : string)
| JArray (items : list json)
| JObject (members : list (string * json)).

(** What [client.R()....Post(url)] returns: [err != nil], [resp.StatusCode()]
    and [resp.Body()] ([None] when the bytes are not a JSON document). *)
Record Response := {
  transport_err : bool;
  StatusCode : Z;
  Body : option json
}.

(** Reading the file for its digest: [os.Open] may fail, [io.Copy] may fail. *)
Inductive ReadResult :=
| OpenError
| CopyError
| Digest (hash : string).

(** One observation of the stability loop.  [t_elapsed] is
    [time.Since(startTime)] at the head of the iteration, [t_cancel] says
    that [ctx.Done()] wins the [select], [t_disk] is what other processes
    have left at the path by the time of the probe ([None]: nothing, so
    [os.Stat] fails) and [t_locked] that [os.OpenFile(O_RDWR)] fails. *)
Record Tick := {
  t_elapsed : Z;
  t_cancel : bool;
  t_disk : option FileInfo;
  t_locked : bool
}.

(** Everything one processing cycle of a worker receives from outside. *)
Record Env := {
  ticks : list Tick;
  read_result : ReadResult;
  post : nat → Response;        (* answer to the i-th POST, i = 0, 1, 2 *)
  cancel_wait : nat → bool;     (* [ctx.Done()] wins the back-off after POST i *)
  clock : Z;                    (* [time.Now()] of File-Log statements *)
  mover : MoveEnv
}.

(** ** Package [api]: the uploader *)

Module api.
Import config.

(** [err == nil && resp.StatusCode() >= 200 && resp.StatusCode() < 300] *)
Definition accepted (r : Response) : bool :=
  negb (transport_err r) && (200 <=? StatusCode r) && (StatusCode r <? 300).

Definition upload_url (remote : RemoteConfig) : string :=
  Endpoint remote +:+ "/agent/upload".

(** The body of [for i := 0; i < 3; i++]; [left] is [3 - i]. *)
Fixpoint attempts (env : Env) (remote : RemoteConfig) (filePath localHash : string)
    (modTime : Z)
    (onSuccess : option (string → string → Z → World → World))
    (onError : option (string → World → World))
    (left : nat) (i : nat) (w : World) : World :=
  match left with
  | O =>
      match onError with
      | Some f => f filePath w
      | None => w
      end
  | S left' =>
      let w := log (EPost (upload_url remote) filePath) w in
      if accepted (post env i) then
        match onSuccess with
        | Some f => f filePath localHash modTime w
        | None => w
        end
      else if cancel_wait env i then w
      else attempts env remote filePath localHash modTime onSuccess onError
             left' (S i) (log (ESleep (2 * Second)) w)
  end.

Definition UploadFile (env : Env) (remote : RemoteConfig) (filePath : string)
    (modTime : Z)
    (onSuccess : option (string → string → Z → World → World))
    (onError : option (string → World → World))
    (w : World) : World :=
  match files w !! filePath with
  | None => w                                   (* os.Open fails *)
  | Some _ =>
      match read_result env with
      | OpenError => w
      | CopyError => log (EHash filePath) w
      | Digest localHash =>
          attempts env remote filePath localHash modTime onSuccess onError
            3 0 (log (EHash filePath) w)
      end
  end.

End api.

(** ** Package [core]: Done-Mover, stability verifier, worker *)

Module core.
Import config.

Definition moveToDone (me : MoveEnv) (absPath : string) (w : World) : World :=
  let doneDir := Join (Dir absPath) ".done" in
  let w := MkdirAll me doneDir w in
  let dest := Join doneDir (Base absPath) in
  let dest :=
    if exists_on_disk w dest
    then Join doneDir (pretty (unix_now me) +:+ "_" +:+ Base absPath)
    else dest in
  match Rename me absPath dest w with
  | Some w' => log (ERename absPath dest true) w'
  | None => log (ERename absPath dest false) w
  end.

(** How the stability loop is left. *)
Inductive LoopExit :=
| Stable                (* [stableCount >= threshold]: go on to the upload *)
| TimedOut              (* [time.Since(startTime) > maxWait]: return *)
| Cancelled             (* [ctx.Done()]: return *)
| StatFailed            (* [os.Stat] error inside the loop: return *)
| Probing (lastSize stableCount : Z).
                        (* the observations end while the loop still runs *)

(** What other processes did to the path since the previous probe. *)
Definition observe (absPath : string) (d : option FileInfo) (w : World) : World :=
  match d with
  | Some fi => set_files (<[absPath := fi]> (files w)) w
  | None => set_files (delete absPath (files w)) w
  end.

(** [for stableCount < threshold { ... }] *)
Fixpoint stability_loop (threshold checkInt maxWait : Z) (absPath : string)
    (ts : list Tick) (lastSize stableCount : Z) (w : World) : World * LoopExit :=
  if stableCount <? threshold then
    match ts with
    | [] => (w, Probing lastSize stableCount)
    | t :: ts' =>
        if maxWait <? t_elapsed t then (w, TimedOut)
        else if t_cancel t then (w, Cancelled)
        else
          let w := log (ESleep checkInt) (observe absPath (t_disk t) w) in
          match files w !! absPath with
          | None => (w, StatFailed)
          | Some inf =>
              if negb (fi_size inf =? lastSize) then
                stability_loop threshold checkInt maxWait absPath ts' (fi_size inf) 0 w
              else if t_locked t then
                stability_loop threshold checkInt maxWait absPath ts' lastSize 0 w
              else
                stability_loop threshold checkInt maxWait absPath ts' lastSize
                  (stableCount + 1) w
          end
    end
  else (w, Stable).

(** The closures [onSuccess] and [onError] built by [handleUpload]. *)
Definition onSuccess (env : Env) (path hash : string) (modTime : Z) (w : World) : World :=
  let w := log (EExec path)
             (set_filelog
                (db.UpdateFileStatus (clock env) path db.StatusVerified hash modTime 0
                   (filelog w)) w) in
  moveToDone (mover env) path w.

Definition onError (env : Env) (path : string) (w : World) : World :=
  log (EExec path) (set_filelog (db.IncrementError (clock env) path (filelog w)) w).

Definition threshold_of (remote : RemoteConfig) : Z :=
  if StabilityThreshold remote <=? 0 then 2 else StabilityThreshold remote.

(** [d, _ := time.ParseDuration(s); if d == 0 { d = dflt }] *)
Definition duration_or (d : option Z) (dflt : Z) : Z :=
  match d with
  | Some v => if v =? 0 then dflt else v
  | None => dflt
  end.

Definition handleUpload (env : Env) (remote : RemoteConfig) (absPath : string)
    (w : World) : World :=
  match files w !! absPath with
  | None => w
  | Some info =>
      let '(status, dbModTime, _, errorCount) := db.GetFileRecord (filelog w) absPath in
      let w := log (EQuery absPath) w in
      if 10 <? errorCount then w
      else if (bool_decide (status = db.StatusUploaded)
               || bool_decide (status = db.StatusVerified))
              && (dbModTime =? fi_mod info)
      then moveToDone (mover env) absPath w
      else
        let threshold := threshold_of remote in
        let checkInt := duration_or (CheckInterval remote) (5 * Second) in
        let maxWait := duration_or (StabilityTimeout remote) (30 * Minute) in
        match stability_loop threshold checkInt maxWait absPath (ticks env)
                (fi_size info) 0 w with
        | (w, Stable) =>
            api.UploadFile env remote absPath (fi_mod info)
              (Some (onSuccess env)) (Some (onError env)) w
        | (w, _) => w
        end
  end.

End core.

(** ** Package [core]: the orchestrator goroutine of [WatchRemote] *)

Module orchestrator.
Import config.

(** [strings.HasPrefix] and [strings.TrimPrefix]. *)
Fixpoint strip (prefix s : string) : option string :=
  match prefix, s with
  | EmptyString, _ => Some s
  | String a prefix', String b s' =>
      if Ascii.eqb a b then strip prefix' s' else None
  | String _ _, EmptyString => None
  end.

Definition HasPrefix (s prefix : string) : bool :=
  match strip prefix s with Some _ => true | None => false end.

Definition TrimPrefix (s prefix : string) : string :=
  match strip prefix s with Some r => r | None => s end.

Record event := Event { path : string; size : Z; mod_ns : Z }.

(** [fileState]; a [*time.Timer] is the identity of the timer. *)
Record fileState := { lastSize : Z; lastMod : Z; timer : nat }.

(** A dispatched goroutine is blocked on [semaphore <- struct{}{}] or is
    inside [handleUpload]. *)
Inductive phase := Queued | Processing.

#[global] Instance phase_eq_dec : EqDecision phase.
Proof. solve_decision. Defined.

Record Orch := {
  now : Z;
  halted : bool;                          (* [ctx.Done()] was taken *)
  activeProcessing : gmap string bool;
  pendingStates : gmap string fileState;
  eventChan : list event;                 (* buffered, capacity 100 *)
  doneChan : list string;                 (* buffered, capacity 100 *)
  outbox : list string;                   (* goroutines blocked in [doneChan <- msg] *)
  armed : gmap nat (string * Z);          (* timers neither fired nor stopped:
                                             captured path and deadline *)
  next_timer : nat;
  workers : gmap nat (string * phase);
  next_worker : nat
}.

Definition init : Orch :=
  {| now := 0; halted := false; activeProcessing := ∅; pendingStates := ∅;
     eventChan := []; doneChan := []; outbox := []; armed := ∅;
     next_timer := 0; workers := ∅; next_worker := 0 |}.

Definition set_now (t : Z) (o : Orch) : Orch :=
  {| now := t; halted := halted o; activeProcessing := activeProcessing o;
     pendingStates := pendingStates o; eventChan := eventChan o;
     doneChan := doneChan o; outbox := outbox o; armed := armed o;
     next_timer := next_timer o; workers := workers o;
     next_worker := next_worker o |}.

Definition set_halted (b : bool) (o : Orch) : Orch :=
  {| now := now o; halted := b; activeProcessing := activeProcessing o;
     pendingStates := pendingStates o; eventChan := eventChan o;
     doneChan := doneChan o; outbox := outbox o; armed := armed o;
     next_timer := next_timer o; workers := workers o;
     next_worker := next_worker o |}.

Definition set_active (a : gmap string bool) (o : Orch) : Orch :=
  {| now := now o; halted := halted o; activeProcessing := a;
     pendingStates := pendingStates o; eventChan := eventChan o;
     doneChan := doneChan o; outbox := outbox o; armed := armed o;
     next_timer := next_timer o; workers := workers o;
     next_worker := next_worker o |}.

Definition set_pending (p : gmap string fileState) (o : Orch) : Orch :=
  {| now := now o; halted := halted o; activeProcessing := activeProcessing o;
     pendingStates := p; eventChan := eventChan o;
     doneChan := doneChan o; outbox := outbox o; armed := armed o;
     next_timer := next_timer o; workers := workers o;
     next_worker := next_worker o |}.

Definition set_eventChan (q : list event) (o : Orch) : Orch :=
  {| now := now o; halted := halted o; activeProcessing := activeProcessing o;
     pendingStates := pendingStates o; eventChan := q;
     doneChan := doneChan o; outbox := outbox o; armed := armed o;
     next_timer := next_timer o; workers := workers o;
     next_worker := next_worker o |}.

Definition set_doneChan (q : list string) (o : Orch) : Orch :=
  {| now := now o; halted := halted o; activeProcessing := activeProcessing o;
     pendingStates := pendingStates o; eventChan := eventChan o;
     doneChan := q; outbox := outbox o; armed := armed o;
     next_timer := next_timer o; workers := workers o;
     next_worker := next_worker o |}.

Definition set_outbox (q : list string) (o : Orch) : Orch :=
  {| now := now o; halted := halted o; activeProcessing := activeProcessing o;
     pendingStates := pendingStates o; eventChan := eventChan o;
     doneChan := doneChan o; outbox := q; armed := armed o;
     next_timer := next_timer o; workers := workers o;
     next_worker := next_worker o |}.

Definition set_timers (a : gmap nat (string * Z)) (n : nat) (o : Orch) : Orch :=
  {| now := now o; halted := halted o; activeProcessing := activeProcessing o;
     pendingStates := pendingStates o; eventChan := eventChan o;
     doneChan := doneChan o; outbox := outbox o; armed := a;
     next_timer := n; workers := workers o;
     next_worker := next_worker o |}.

Definition set_workers (ws : gmap nat (string * phase)) (n : nat) (o : Orch) : Orch :=
  {| now := now o; halted := halted o; activeProcessing := activeProcessing o;
     pendingStates := pendingStates o; eventChan := eventChan o;
     doneChan := doneChan o; outbox := outbox o; armed := armed o;
     next_timer := next_timer o; workers := ws;
     next_worker := n |}.

(** [settling, err := time.ParseDuration(...); if err != nil { settling = 5s }] *)
Definition settling_of (remote : RemoteConfig) : Z :=
  match SettlingDelay remote with
  | Some d => d
  | None => 5 * Second
  end.

Definition limit_of (remote : RemoteConfig) : Z :=
  if ConcurrencyLimit remote <=? 0 then 5 else ConcurrencyLimit remote.

(** [time.AfterFunc(d, func() { doneChan <- "START:" + p })]: a new armed
    timer; the result is its identity. *)
Definition AfterFunc (d : Z) (p : string) (o : Orch) : nat * Orch :=
  (next_timer o,
   set_timers (<[next_timer o := (p, now o + d)]> (armed o)) (S (next_timer o)) o).

(** [t.Stop()]: disarms the timer; nothing happens when it has fired. *)
Definition Stop (id : nat) (o : Orch) : Orch :=
  set_timers (delete id (armed o)) (next_timer o) o.

(** [case e := <-eventChan] *)
Definition on_event (settling : Z) (e : event) (o : Orch) : Orch :=
  if default false (activeProcessing o !! path e) then o
  else
    match pendingStates o !! path e with
    | Some state =>
        if negb (size e =? lastSize state) || negb (mod_ns e =? lastMod state) then
          let o := Stop (timer state) o in
          let '(id, o) := AfterFunc settling (path e) o in
          set_pending
            (<[path e := {| lastSize := size e; lastMod := mod_ns e; timer := id |}]>
               (pendingStates o)) o
        else o
    | None =>
        let '(id, o) := AfterFunc settling (path e) o in
        set_pending
          (<[path e := {| lastSize := size e; lastMod := mod_ns e; timer := id |}]>
             (pendingStates o)) o
    end.

(** [case msg := <-doneChan] *)
Definition on_done (msg : string) (o : Orch) : Orch :=
  if HasPrefix msg "START:" then
    let path := TrimPrefix msg "START:" in
    let o := set_pending (delete path (pendingStates o)) o in
    let o := set_active (<[path := true]> (activeProcessing o)) o in
    set_workers (<[next_worker o := (path, Queued)]> (workers o))
      (S (next_worker o)) o
  else if HasPrefix msg "FINISH:" then
    let path := TrimPrefix msg "FINISH:" in
    set_active (delete path (activeProcessing o)) o
  else o.

(** Semaphore slots in use: goroutines between acquire and release. *)
Definition slots_taken (o : Orch) : nat :=
  length (filter (λ kv, kv.2.2 = Processing) (map_to_list (workers o))).

(** The workers that are inside [handleUpload] for path [p]. *)
Definition processing (p : string) (o : Orch) : list nat :=
  (filter (λ kv, kv.2 = (p, Processing)) (map_to_list (workers o))).*1.

(** What can happen next. *)
Inductive label :=
| Emit (e : event)      (* a source: [eventChan <- e] *)
| RecvEvent             (* the [select] takes [<-eventChan] *)
| Fire (id : nat)       (* an armed timer expires; its closure starts sending *)
| Deliver (i : nat)     (* the i-th blocked send on [doneChan] completes *)
| RecvDone              (* the [select] takes [<-doneChan] *)
| Acquire (k : nat)     (* worker k gets a semaphore slot, enters [handleUpload] *)
| Return (k : nat)      (* [handleUpload] of worker k returns; the deferred
                           function frees the slot and sends FINISH *)
| Advance (d : Z)       (* time passes *)
| Shutdown.             (* the [select] takes [<-ctx.Done()] *)

Definition step (remote : RemoteConfig) (l : label) (o : Orch) : option Orch :=
  match l with
  | Emit e =>
      if bool_decide (length (eventChan o) < 100)%nat
      then Some (set_eventChan (eventChan o ++ [e]) o) else None
  | RecvEvent =>
      if halted o then None else
      match eventChan o with
      | e :: q => Some (on_event (settling_of remote) e (set_eventChan q o))
      | [] => None
      end
  | Fire id =>
      match armed o !! id with
      | Some (p, deadline) =>
          if deadline <=? now o
          then Some (set_outbox (outbox o ++ ["START:" +:+ p]) (Stop id o))
          else None
      | None => None
      end
  | Deliver i =>
      match outbox o !! i with
      | Some msg =>
          if bool_decide (length (doneChan o) < 100)%nat
          then Some (set_doneChan (doneChan o ++ [msg])
                       (set_outbox (delete i (outbox o)) o))
          else None
      | None => None
      end
  | RecvDone =>
      if halted o then None else
      match doneChan o with
      | msg :: q => Some (on_done msg (set_doneChan q o))
      | [] => None
      end
  | Acquire k =>
      match workers o !! k with
      | Some (p, Queued) =>
          if Z.of_nat (slots_taken o) <? limit_of remote
          then Some (set_workers (<[k := (p, Processing)]> (workers o))
                       (next_worker o) o)
          else None
      | _ => None
      end
  | Return k =>
      match workers o !! k with
      | Some (p, Processing) =>
          Some (set_outbox (outbox o ++ ["FINISH:" +:+ p])
                  (set_workers (delete k (workers o)) (next_worker o) o))
      | _ => None
      end
  | Advance d =>
      if 0 <=? d then Some (set_now (now o + d) o) else None
  | Shutdown => Some (set_halted true o)
  end.

Fixpoint run (remote : RemoteConfig) (ls : list label) (o : Orch) : option Orch :=
  match ls with
  | [] => Some o
  | l :: ls' =>
      match step remote l o with
      | Some o' => run remote ls' o'
      | None => None
      end
  end.

Definition reachable (remote : RemoteConfig) (o : Orch) : Prop :=
  ∃ ls, run remote ls init = Some o.

End orchestrator.

(** ** Package [cmd], earlier variant: [uploadFile] with the integrity handshake

    This variant of the uploader calls the File-Log itself ([cmd/db.go]
    issues the same SQL statements as package [db]), moves the file
    itself and sleeps with [time.Sleep], which no cancellation
    interrupts. *)

Module legacy.
Import config.

(** [json.Unmarshal(resp.Body(), &result)] with
    [result map[string]interface{}]: [None] is the error.  A later member
    of the document replaces an earlier one of the same name; [null]
    leaves the map nil. *)
Definition Unmarshal (body : option json) : option (gmap string json) :=
  match body with
  | Some (JObject members) => Some (list_to_map (reverse members))
  | Some JNull => Some ∅
  | _ => None
  end.

(** [v, ok := result[key].(string)] *)
Definition string_member (result : gmap string json) (key : string) : option string :=
  match result !! key with
  | Some (JString s) => Some s
  | _ => None
  end.

Definition exec (path : string) (f : gmap string db.row → gmap string db.row)
    (w : World) : World :=
  log (EExec path) (set_filelog (f (filelog w)) w).

(** The move to [.done] at the end of a successful attempt; [stamp] is
    [time.Now().Format("20060102150405")]. *)
Definition move (me : MoveEnv) (stamp : string) (filePath : string) (w : World) : World :=
  let doneDir := Join (Dir filePath) ".done" in
  let destPath := Join doneDir (Base filePath) in
  let destPath :=
    if exists_on_disk w destPath
    then Join doneDir (stamp +:+ "_" +:+ Base filePath)
    else destPath in
  match Rename me filePath destPath w with
  | Some w' => log (ERename filePath destPath true) w'
  | None => log (ERename filePath destPath false) w
  end.

(** The body of [for i := 0; i < maxRetries; i++]; [left] is [maxRetries - i]. *)
Fixpoint attempts (env : Env) (stamp : string) (remote : RemoteConfig)
    (filePath localHash : string) (modTime : Z)
    (left : nat) (i : nat) (w : World) : World :=
  match left with
  | O => exec filePath (db.IncrementError (clock env) filePath) w
  | S left' =>
      let w := log (EPost (api.upload_url remote) filePath) w in
      if api.accepted (post env i) then
        match Unmarshal (Body (post env i)) with
        | Some result =>
            match string_member result "sha256" with
            | Some remoteHash =>
                if decide (remoteHash = localHash) then
                  move (mover env) stamp filePath
                    (exec filePath
                       (db.UpdateFileStatus (clock env) filePath db.StatusVerified
                          localHash modTime 0) w)
                else
                  exec filePath (db.IncrementError (clock env) filePath)
                    (exec filePath (db.MarkCorrupt (clock env) filePath) w)
            | None =>
                move (mover env) stamp filePath
                  (exec filePath
                     (db.UpdateFileStatus (clock env) filePath db.StatusUploaded
                        localHash modTime 0) w)
            end
        | None => move (mover env) stamp filePath w
        end
      else attempts env stamp remote filePath localHash modTime
             left' (S i) (log (ESleep (2 * Second)) w)
  end.

Definition uploadFile (env : Env) (stamp : string) (remote : RemoteConfig)
    (filePath : string) (modTime : Z) (w : World) : World :=
  let doneDir := Join (Dir filePath) ".done" in
  let w := if exists_on_disk w doneDir then w else MkdirAll (mover env) doneDir w in
  match files w !! filePath with
  | None => w
  | Some _ =>
      match read_result env with
      | OpenError => w
      | CopyError => log (EHash filePath) w
      | Digest localHash =>
          attempts env stamp remote filePath localHash modTime 3 0
            (log (EHash filePath) w)
      end
  end.

End legacy.

(** ** Vocabulary of the statements *)

(** The trace left by [k] failed attempts, each followed by its full
    two-second wait. *)
Definition failed_rounds (remote : config.RemoteConfig) (file : string) (k : nat)
  : list Effect :=
  concat (replicate k [EPost (api.upload_url remote) file; ESleep (2 * Second)]).

Definition is_post (e : Effect) : bool :=
  match e with EPost _ _ => true | _ => false end.

(** Number of POSTs among some actions. *)
Definition posts (tl : list Effect) : nat := length (List.filter is_post tl).

(** The world with more actions on its trace and nothing else changed. *)
Definition extend (tl : list Effect) (w : World) : World :=
  {| filelog := filelog w; files := files w; dirs := dirs w;
     trace := trace w ++ tl |}.

(** [if f != nil { f(...) }] *)
Definition call_success (f : option (string → string → Z → World → World))
    (path hash : string) (modTime : Z) (w : World) : World :=
  match f with Some fs => fs path hash modTime w | None => w end.

Definition call_error (g : option (string → World → World))
    (path : string) (w : World) : World :=
  match g with Some gs => gs path w | None => w end.

(** The same environment with other response bodies. *)
Definition with_bodies (b : nat → option json) (env : Env) : Env :=
  {| ticks := ticks env; read_result := read_result env;
     post := λ i, {| transport_err := transport_err (post env i);
                     StatusCode := StatusCode (post env i);
                     Body := b i |};
     cancel_wait := cancel_wait env; clock := clock env; mover := mover env |}.

(** Invariant of the orchestrator's maps and timers. *)
Definition orch_inv (o : orchestrator.Orch) : Prop :=
  (∀ p st, orchestrator.pendingStates o !! p = Some st →
           orchestrator.activeProcessing o !! p = None
           ∧ (orchestrator.timer st < orchestrator.next_timer o)%nat)
  ∧ (∀ p b, orchestrator.activeProcessing o !! p = Some b → b = true)
  ∧ (∀ id x, orchestrator.armed o !! id = Some x →
             (id < orchestrator.next_timer o)%nat).

(** ** Concrete data used by the examples

    One Remote with [settling_delay = 2s], [stability_threshold = 2],
    [check_interval = 1s], [concurrency_limit = 2]; one ten-byte file. *)

Module sample.
Import config.

Definition R : RemoteConfig :=
  {| Name := "R"; Path := "/watch"; Endpoint := "https://sift.example";
     Key := "sk_test"; StabilityThreshold := 2; CheckInterval := Some Second;
     StabilityTimeout := Some (30 * Minute); ConcurrencyLimit := 2;
     PollingInterval := Some Minute; SettlingDelay := Some (2 * Second);
     DisableFsnotify := false |}.

Definition a_pdf : string := "/watch/a.pdf".
Definition on_disk : FileInfo := {| fi_size := 10; fi_mod := 1700000000000000077 |}.
Definition local_hash : string := "9f86d081884c7d65".

Definition fresh : World :=
  {| filelog := ∅; files := {[ a_pdf := on_disk ]}; dirs := {[ "/watch" ]};
     trace := [] |}.

(** The file is unchanged and unlocked at the probe. *)
Definition quiet : Tick :=
  {| t_elapsed := 0; t_cancel := false; t_disk := Some on_disk; t_locked := false |}.

(** The file is gone at the probe: [os.Stat] fails. *)
Definition gone : Tick :=
  {| t_elapsed := 0; t_cancel := false; t_disk := None; t_locked := false |}.

Definition os_ok : MoveEnv :=
  {| mkdir_ok := true; unix_now := 1700000000; rename_refused := false |}.

Definition os_denies : MoveEnv :=
  {| mkdir_ok := true; unix_now := 1700000000; rename_refused := true |}.

Definition reply (code : Z) (body : option json) : Response :=
  {| transport_err := false; StatusCode := code; Body := body |}.

(** The server answers every POST with [code] and [body]; no shutdown. *)
Definition server (code : Z) (body : option json) (ts : list Tick) : Env :=
  {| ticks := ts; read_result := Digest local_hash;
     post := λ _, reply code body; cancel_wait := λ _, false;
     clock := 1700000001; mover := os_ok |}.

(** Shutdown arrives during the back-off that follows POST number [n]. *)
Definition shutdown_after (n : nat) (env : Env) : Env :=
  {| ticks := ticks env; read_result := read_result env; post := post env;
     cancel_wait := λ i, bool_decide (i = n); clock := clock env;
     mover := mover env |}.

(** A File-Log in which the path was delivered once and then failed [n] cycles. *)
Definition delivered_then_failed (n : nat) : gmap string db.row :=
  db.increment_times n 1700000002 a_pdf
    (db.UpdateFileStatus 1700000001 a_pdf db.StatusVerified local_hash
       (fi_mod on_disk) 0 ∅).

Definition mismatch_body : option json :=
  Some (JObject [("sha256", JString "deadbeef")]).

(** An interleaving of the orchestrator's inputs.  The file is seen
    (10 bytes); its settling timer expires and the START message is
    queued on [doneChan]; before the orchestrator takes that message, a
    probe of the file after a write (20 bytes) is taken from [eventChan];
    then START is taken and the first worker starts; two seconds later
    the second timer expires. *)
Definition race : list orchestrator.label :=
  [ orchestrator.Emit (orchestrator.Event a_pdf 10 1700000000000000077);
    orchestrator.RecvEvent;
    orchestrator.Advance (2 * Second);
    orchestrator.Fire 0;
    orchestrator.Deliver 0;
    orchestrator.Emit (orchestrator.Event a_pdf 20 1700000002000000000);
    orchestrator.RecvEvent;
    orchestrator.RecvDone;
    orchestrator.Acquire 0;
    orchestrator.Advance (2 * Second);
    orchestrator.Fire 1;
    orchestrator.Deliver 0;
    orchestrator.RecvDone;
    orchestrator.Acquire 1 ].

(** The file is seen once and is waiting for its settling timer. *)
Definition settling : list orchestrator.label :=
  [ orchestrator.Emit (orchestrator.Event a_pdf 10 1700000000000000077);
    orchestrator.RecvEvent ].

End sample.
(** ** Package [cmd]: the [remote add] and [remote remove] commands

    The commands are modelled up to the list they hand to
    [viper.Set("remotes", ...)]; [None] means that the command returned
    before that call.  The answer of the verification request and the
    result of [filepath.Abs] are inputs. *)

Module remote_cmd.
Import config.

Fixpoint mem_char (c : ascii) (cutset : string) : bool :=
  match cutset with
  | EmptyString => false
  | String d rest => Ascii.eqb c d || mem_char c rest
  end.

(** [strings.TrimRight(s, cutset)]: drops every trailing character that
    occurs in [cutset]. *)
Fixpoint TrimRight (s cutset : string) : string :=
  match s with
  | EmptyString => EmptyString
  | String c r =>
      match TrimRight r cutset with
      | EmptyString => if mem_char c cutset then EmptyString else String c EmptyString
      | String d r' => String c (String d r')
      end
  end.

(** The flags of [remote add]; the duration flags are held the way
    [RemoteConfig] holds them. *)
Record AddFlags := {
  f_name : string;
  f_path : string;
  f_endpoint : string;
  f_key : string;
  f_force : bool;
  f_stability_threshold : Z;
  f_check_interval : option Z;
  f_stability_timeout : option Z;
  f_concurrency_limit : Z;
  f_polling_interval : option Z;
  f_settling_delay : option Z;
  f_no_fsnotify : bool
}.

(** [for _, r := range remotes { if r.Name == name { ...; return } }] *)
Fixpoint name_taken (name : string) (remotes : list RemoteConfig) : bool :=
  match remotes with
  | [] => false
  | r :: rest => if decide (Name r = name) then true else name_taken name rest
  end.

Definition remoteAdd (fl : AddFlags) (check : Response) (abs : option string)
    (remotes : list RemoteConfig) : option (list RemoteConfig) :=
  if bool_decide (f_name fl = "") || bool_decide (f_path fl = "")
     || bool_decide (f_key fl = "")
  then None
  else
    let endpoint := TrimRight (f_endpoint fl) "/" in
    if negb (f_force fl)
       && (transport_err check
           || (StatusCode check =? 401) || (StatusCode check =? 403)
           || negb (StatusCode check =? 200))
    then None
    else
      match abs with
      | None => None
      | Some absPath =>
          if name_taken (f_name fl) remotes then None
          else
            Some (remotes ++
                  [{| Name := f_name fl; Path := absPath; Endpoint := endpoint;
                      Key := f_key fl;
                      StabilityThreshold := f_stability_threshold fl;
                      CheckInterval := f_check_interval fl;
                      StabilityTimeout := f_stability_timeout fl;
                      ConcurrencyLimit := f_concurrency_limit fl;
                      PollingInterval := f_polling_interval fl;
                      SettlingDelay := f_settling_delay fl;
                      DisableFsnotify := f_no_fsnotify fl |}])
      end.

(** The loop of [remote remove]: [found] and [updatedRemotes]. *)
Fixpoint remove_loop (name : string) (remotes : list RemoteConfig)
    (found : bool) (updatedRemotes : list RemoteConfig)
  : bool * list RemoteConfig :=
  match remotes with
  | [] => (found, updatedRemotes)
  | r :: rest =>
      if decide (Name r = name)
      then remove_loop name rest true updatedRemotes
      else remove_loop name rest found (updatedRemotes ++ [r])
  end.

Definition remoteRemove (name : string) (remotes : list RemoteConfig)
  : option (list RemoteConfig) :=
  let '(found, updatedRemotes) := remove_loop name remotes false [] in
  if found then Some updatedRemotes else None.

End remote_cmd.

(** [k] slashes. *)
Fixpoint slashes (k : nat) : string :=
  match k with
  | O => EmptyString
  | S k' => String "/"%char (slashes k')
  end.

(** ** Vocabulary of the further statements *)

(** [json.Unmarshal] into a [map[string]interface{}] returns no error:
    the body is a JSON object or [null]. *)
Definition decodes_into_map (body : option json) : bool :=
  match body with
  | Some (JObject _) | Some JNull => true
  | _ => false
  end.

(** A probe at which no shutdown arrives and the file has size [s] and
    can be opened for read-write. *)
Definition quiet_at (s : Z) (t : Tick) : Prop :=
  t_cancel t = false ∧ t_locked t = false
  ∧ ∃ fi, t_disk t = Some fi ∧ fi_size fi = s.

(** Successive processing cycles of one path, one environment each. *)
Fixpoint cycles (envs : list Env) (remote : config.RemoteConfig) (P : string)
    (w : World) : World :=
  match envs with
  | [] => w
  | env :: rest => cycles rest remote P (core.handleUpload env remote P w)
  end.

(** Every probe finds the file with another size than the observation
    before it; [last] is the size seen before the first probe. *)
Fixpoint ever_changing (last : Z) (ts : list Tick) : Prop :=
  match ts with
  | [] => True
  | t :: ts' =>
      match t_disk t with
      | Some fi => fi_size fi ≠ last ∧ ever_changing (fi_size fi) ts'
      | None => True
      end
  end.

(** A probe before the deadline [mw], without shutdown, that finds the
    file exactly as [info] describes it and not locked. *)
Definition untouched_at (info : FileInfo) (mw : Z) (t : Tick) : Prop :=
  t_elapsed t ≤ mw ∧ t_cancel t = false ∧ t_disk t = Some info
  ∧ t_locked t = false.

(** Resource bounds of the orchestrator: semaphore slots in use, lengths
    of the two buffered channels, and freshness of worker identities. *)
Definition orch_bounds (remote : config.RemoteConfig) (o : orchestrator.Orch) : Prop :=
  Z.of_nat (orchestrator.slots_taken o) ≤ orchestrator.limit_of remote
  ∧ (length (orchestrator.eventChan o) ≤ 100)%nat
  ∧ (length (orchestrator.doneChan o) ≤ 100)%nat
  ∧ (∀ k x, orchestrator.workers o !! k = Some x →
            (k < orchestrator.next_worker o)%nat).

(** ** File-Log laws *)

Section FileLogLaws.
Import db.
Implicit Types (t : gmap string row) (path hash st : string).

Lemma get_after_update now path st hash modTime size t :
  GetFileRecord (UpdateFileStatus now path st hash modTime size t) path
  = (st, modTime, hash, 0).
Proof.
  unfold GetFileRecord, UpdateFileStatus.
  destruct (t !! path); by rewrite lookup_insert_eq.
Qed.

Lemma update_other now path st hash modTime size t q :
  q ≠ path →
  UpdateFileStatus now path st hash modTime size t !! q = t !! q.
Proof.
  intros Hq. unfold UpdateFileStatus.
  destruct (t !! path); by rewrite lookup_insert_ne.
Qed.

Lemma increment_present now path t r :
  t !! path = Some r →
  GetFileRecord (IncrementError now path t) path
  = (status r, mod_time r, file_hash r, error_count r + 1).
Proof.
  intros Hr. unfold GetFileRecord, IncrementError.
  rewrite Hr. by rewrite lookup_insert_eq.
Qed.

Lemma increment_absent now path t :
  t !! path = None → IncrementError now path t = t.
Proof. intros Hr. unfold IncrementError. by rewrite Hr. Qed.

Lemma increment_other now path t q :
  q ≠ path → IncrementError now path t !! q = t !! q.
Proof.
  intros Hq. unfold IncrementError.
  destruct (t !! path); [by rewrite lookup_insert_ne | done].
Qed.

Lemma corrupt_present now path t r :
  t !! path = Some r →
  GetFileRecord (MarkCorrupt now path t) path
  = (StatusCorrupt, mod_time r, file_hash r, error_count r).
Proof.
  intros Hr. unfold GetFileRecord, MarkCorrupt.
  rewrite Hr. by rewrite lookup_insert_eq.
Qed.

Lemma corrupt_absent now path t :
  t !! path = None → MarkCorrupt now path t = t.
Proof. intros Hr. unfold MarkCorrupt. by rewrite Hr. Qed.

(** While a row exists, [n] increments add exactly [n]. *)
Lemma increment_times_count n now path t r :
  t !! path = Some r →
  GetFileRecord (increment_times n now path t) path
  = (status r, mod_time r, file_hash r, error_count r + Z.of_nat n).
Proof.
  intros Hr. induction n as [|n IH].
  - cbn. unfold GetFileRecord. rewrite Hr. f_equal. lia.
  - cbn [increment_times].
    unfold GetFileRecord in IH.
    destruct (increment_times n now path t !! path) as [r'|] eqn:E.
    + rewrite (increment_present _ _ _ r' E).
      injection IH as -> -> -> ->. f_equal. lia.
    + exfalso. clear IH. revert E. clear -Hr.
      induction n as [|n IH]; cbn; [by rewrite Hr|].
      unfold IncrementError.
      destruct (increment_times n now path t !! path) eqn:E'; [|by auto].
      by rewrite lookup_insert_eq.
Qed.

(** C8. Upsert-then-read law of the File-Log: from any prior table
    [t], [UpdateFileStatus P VERIFIED h m s] followed by
    [GetFileRecord P] returns [(VERIFIED, m, h, 0)]; the same holds
    after any number [n] of [IncrementError P] calls, so the upsert
    resets [error_count] to 0. *)
Theorem C8_update_then_get :
  ∀ (t : gmap string row) (P h : string) (m s now now' : Z) (n : nat),
    GetFileRecord (UpdateFileStatus now P StatusVerified h m s t) P
    = (StatusVerified, m, h, 0)
    ∧ GetFileRecord
        (UpdateFileStatus now P StatusVerified h m s
           (increment_times n now' P t)) P
      = (StatusVerified, m, h, 0).
Proof. intros. split; apply get_after_update. Qed.

End FileLogLaws.


(** ** Done-Mover *)

Section DoneMover.
Import core.
Implicit Types (w : World) (me : MoveEnv).

Lemma log_filelog e w : filelog (log e w) = filelog w.
Proof. reflexivity. Qed.

Lemma MkdirAll_frame me dir w :
  filelog (MkdirAll me dir w) = filelog w
  ∧ files (MkdirAll me dir w) = files w
  ∧ trace (MkdirAll me dir w) = trace w ++ [EMkdirAll dir].
Proof. unfold MkdirAll. by destruct (_ && _). Qed.

Lemma Rename_frame me src dst w w' :
  Rename me src dst w = Some w' →
  filelog w' = filelog w ∧ trace w' = trace w ∧ dirs w' = dirs w
  ∧ files w' !! src = (if decide (dst = src) then files w !! src else None).
Proof.
  unfold Rename. destruct (files w !! src) as [fi|] eqn:E; [|done].
  destruct (_ && _); [|done]. intros [= <-]. cbn. repeat split.
  destruct (decide (dst = src)) as [->|Hne].
  - by rewrite lookup_insert_eq.
  - by rewrite lookup_insert_ne, lookup_delete_eq.
Qed.

Lemma Rename_refused me src dst w :
  rename_refused me = true → Rename me src dst w = None.
Proof.
  intros H. unfold Rename. destruct (files w !! src); [|done].
  by rewrite H.
Qed.

(** The Done-Mover is a [MkdirAll] followed by one [Rename]; it leaves the
    File-Log alone. *)
Lemma moveToDone_shape me p w :
  filelog (moveToDone me p w) = filelog w
  ∧ ∃ dest ok,
      trace (moveToDone me p w)
      = trace w ++ [EMkdirAll (Join (Dir p) ".done"); ERename p dest ok]
      ∧ (ok = false → files (moveToDone me p w) = files w).
Proof.
  unfold moveToDone.
  destruct (MkdirAll_frame me (Join (Dir p) ".done") w) as (Hl & Hf & Ht).
  set (w1 := MkdirAll me (Join (Dir p) ".done") w) in *.
  set (dest := if exists_on_disk w1 _ then _ else _).
  destruct (Rename me p dest w1) as [w2|] eqn:E.
  - destruct (Rename_frame _ _ _ _ _ E) as (Hl2 & Ht2 & _ & _).
    split; [cbn; congruence|].
    exists dest, true. split; [|done].
    cbn. rewrite Ht2, Ht. by rewrite <- app_assoc.
  - split; [cbn; congruence|].
    exists dest, false. split; [|done].
    cbn. rewrite Ht. by rewrite <- app_assoc.
Qed.

(** C9. The Done-Move issues no File-Log statement: whatever the
    outcome of the rename, the whole File-Log table (status, hash,
    mod_time, error_count of every path) is the one it started from and
    the only actions performed are one [MkdirAll] and one [Rename]; when
    the rename fails, every file, the moved one included, stays where it
    was. *)
Theorem C9_done_move_leaves_filelog :
  ∀ (me : MoveEnv) (P : string) (w : World),
    filelog (moveToDone me P w) = filelog w
    ∧ (∀ q, db.GetFileRecord (filelog (moveToDone me P w)) q
            = db.GetFileRecord (filelog w) q)
    ∧ ∃ dest ok,
        trace (moveToDone me P w)
        = trace w ++ [EMkdirAll (Join (Dir P) ".done"); ERename P dest ok]
        ∧ (ok = false →
           files (moveToDone me P w) = files w
           ∧ files (moveToDone me P w) !! P = files w !! P).
Proof.
  intros me P w.
  destruct (moveToDone_shape me P w) as (Hl & dest & ok & Ht & Hf).
  split; [done|]. split; [by intros q; rewrite Hl|].
  exists dest, ok. split; [done|].
  intros Hok. rewrite (Hf Hok). done.
Qed.

(** A refused rename, on the sample file. *)
Lemma C9_refused_rename_witness :
  filelog (moveToDone sample.os_denies sample.a_pdf sample.fresh)
  = filelog sample.fresh
  ∧ trace (moveToDone sample.os_denies sample.a_pdf sample.fresh)
    = [EMkdirAll "/watch/.done";
       ERename "/watch/a.pdf" "/watch/.done/a.pdf" false]
  ∧ files (moveToDone sample.os_denies sample.a_pdf sample.fresh) !! sample.a_pdf
    = Some sample.on_disk.
Proof.
  destruct (C9_done_move_leaves_filelog sample.os_denies sample.a_pdf sample.fresh)
    as (Hl & _ & dest & ok & Ht & Hf).
  assert (Hok : ok = false) by (vm_compute in Ht; congruence).
  split; [exact Hl|].
  split; [vm_compute; reflexivity|].
  destruct (Hf Hok) as [_ ->]. vm_compute; reflexivity.
Defined.

End DoneMover.

(** ** The worker: File-Log consultation and stability loop *)

Section Worker.
Import config core.
Implicit Types (w : World) (env : Env) (remote : RemoteConfig).

(** The stability loop writes no File-Log row and only sleeps. *)
Lemma stability_loop_frame th ci mw P ts :
  ∀ last cnt w,
    filelog (stability_loop th ci mw P ts last cnt w).1 = filelog w
    ∧ ∃ n, trace (stability_loop th ci mw P ts last cnt w).1
           = trace w ++ replicate n (ESleep ci).
Proof.
  induction ts as [|t ts IH]; intros last cnt w; cbn [stability_loop].
  - destruct (cnt <? th); (split; [done|]); exists 0%nat; cbn; by rewrite app_nil_r.
  - destruct (cnt <? th); [|split; [done|exists 0%nat; cbn; by rewrite app_nil_r]].
    destruct (mw <? t_elapsed t); [split; [done|exists 0%nat; cbn; by rewrite app_nil_r]|].
    destruct (t_cancel t); [split; [done|exists 0%nat; cbn; by rewrite app_nil_r]|].
    set (w1 := log (ESleep ci) (observe P (t_disk t) w)).
    assert (Hl : filelog w1 = filelog w) by (unfold w1, observe; by destruct (t_disk t)).
    assert (Ht : trace w1 = trace w ++ [ESleep ci])
      by (unfold w1, observe; by destruct (t_disk t)).
    assert (Hstep : ∀ l c,
      filelog (stability_loop th ci mw P ts l c w1).1 = filelog w
      ∧ ∃ n, trace (stability_loop th ci mw P ts l c w1).1
             = trace w ++ replicate n (ESleep ci)).
    { intros l c. destruct (IH l c w1) as (H1 & n & H2).
      split; [congruence|]. exists (S n).
      rewrite H2, Ht, <- app_assoc. done. }
    destruct (files w1 !! P) as [inf|].
    + destruct (negb _); [apply Hstep|].
      destruct (t_locked t); apply Hstep.
    + split; [done|]. exists 1%nat. done.
Qed.

(** C5 (amended). When the File-Log record of P has status UPLOADED or
    VERIFIED, its stored mod_time equals the current on-disk
    modification time and its error_count is at most 10, the worker
    queries the File-Log, attempts the Done-Move and returns: no hash,
    no POST and no File-Log write occur, and the File-Log is unchanged. *)
Theorem C5_delivered_file_is_only_moved :
  ∀ env remote (P : string) w (info : FileInfo) (r : db.row),
    files w !! P = Some info →
    filelog w !! P = Some r →
    db.status r = db.StatusUploaded ∨ db.status r = db.StatusVerified →
    db.mod_time r = fi_mod info →
    db.error_count r ≤ 10 →
    handleUpload env remote P w = moveToDone (mover env) P (log (EQuery P) w)
    ∧ filelog (handleUpload env remote P w) = filelog w
    ∧ ∃ dest ok,
        trace (handleUpload env remote P w)
        = trace w ++ [EQuery P; EMkdirAll (Join (Dir P) ".done"); ERename P dest ok].
Proof.
  intros env remote P w info r Hf Hr Hst Hmod Herr.
  assert (E : handleUpload env remote P w
              = moveToDone (mover env) P (log (EQuery P) w)).
  { unfold handleUpload, db.GetFileRecord. rewrite Hf, Hr.
    replace (10 <? db.error_count r) with false by (symmetry; apply Z.ltb_ge; lia).
    rewrite Hmod, Z.eqb_refl, andb_true_r.
    destruct Hst as [-> | ->]; reflexivity. }
  rewrite E.
  destruct (moveToDone_shape (mover env) P (log (EQuery P) w))
    as (Hl & dest & ok & Ht & _).
  split; [done|]. split; [done|].
  exists dest, ok. rewrite Ht. cbn. by rewrite <- app_assoc.
Qed.

(** The restart scenario: [a.pdf] is VERIFIED at its on-disk mod-time. *)
Lemma C5_restart_witness :
  trace (handleUpload (sample.server 200 None [])
           sample.R sample.a_pdf
           (set_filelog (sample.delivered_then_failed 0) sample.fresh))
  = [EQuery "/watch/a.pdf"; EMkdirAll "/watch/.done";
     ERename "/watch/a.pdf" "/watch/.done/a.pdf" true].
Proof.
  destruct (C5_delivered_file_is_only_moved (sample.server 200 None [])
              sample.R sample.a_pdf
              (set_filelog (sample.delivered_then_failed 0) sample.fresh)
              sample.on_disk
              {| db.file_hash := sample.local_hash;
                 db.mod_time := fi_mod sample.on_disk; db.file_size := 0;
                 db.status := db.StatusVerified;
                 db.last_attempt_at := 1700000001; db.tenant_id := None;
                 db.error_count := 0 |})
    as (E & _ & _).
  - vm_compute; reflexivity.
  - vm_compute; reflexivity.
  - right; reflexivity.
  - reflexivity.
  - vm_compute; discriminate.
  - rewrite E. vm_compute; reflexivity.
Defined.

(** C5 as stated fails: a record that is VERIFIED at the on-disk
    mod-time but carries eleven errors makes the worker return right
    after the File-Log query; the Done-Move is not attempted. *)
Lemma C5_counterexample_too_many_errors :
  let w := set_filelog (sample.delivered_then_failed 11) sample.fresh in
  files w !! sample.a_pdf = Some sample.on_disk
  ∧ db.GetFileRecord (filelog w) sample.a_pdf
    = ("VERIFIED", fi_mod sample.on_disk, sample.local_hash, 11)
  ∧ trace (handleUpload (sample.server 200 None [sample.quiet; sample.quiet])
             sample.R sample.a_pdf w)
    = [EQuery "/watch/a.pdf"]
  ∧ files (handleUpload (sample.server 200 None [sample.quiet; sample.quiet])
             sample.R sample.a_pdf w) = files w.
Proof. vm_compute. repeat split; reflexivity. Qed.

End Worker.

(** ** The worker: what a probe failure does to the stability loop *)

Section StabilityLoop.
Import config core.
Implicit Types (w : World) (env : Env) (remote : RemoteConfig).

Lemma stability_loop_stat_error th ci mw P t ts last cnt w :
  cnt < th → t_elapsed t ≤ mw → t_cancel t = false → t_disk t = None →
  stability_loop th ci mw P (t :: ts) last cnt w
  = (log (ESleep ci) (observe P None w), StatFailed).
Proof.
  intros Hc He Hx Hd. cbn [stability_loop].
  replace (cnt <? th) with true by (symmetry; apply Z.ltb_lt; lia).
  replace (mw <? t_elapsed t) with false by (symmetry; apply Z.ltb_ge; lia).
  rewrite Hx, Hd. cbn. by rewrite lookup_delete_eq.
Qed.

Lemma stability_loop_locked th ci mw P t ts last cnt w fi :
  cnt < th → t_elapsed t ≤ mw → t_cancel t = false →
  t_disk t = Some fi → fi_size fi = last → t_locked t = true →
  stability_loop th ci mw P (t :: ts) last cnt w
  = stability_loop th ci mw P ts last 0 (log (ESleep ci) (observe P (Some fi) w)).
Proof.
  intros Hc He Hx Hd Hs Hl. cbn [stability_loop].
  replace (cnt <? th) with true by (symmetry; apply Z.ltb_lt; lia).
  replace (mw <? t_elapsed t) with false by (symmetry; apply Z.ltb_ge; lia).
  rewrite Hx, Hd. cbn [observe log set_files files].
  rewrite lookup_insert_eq, Hs, Z.eqb_refl, Hl. reflexivity.
Qed.

(** C4 (amended). In an iteration of the stability loop that is neither
    timed out nor cancelled: a failed [stat] ends the loop and the cycle
    for that file (the worker returns with the File-Log untouched and
    without hashing or posting), whereas a failed lock probe (the open
    for read-write) resets the stability counter to zero and the loop
    goes on with the next probe. *)
Theorem C4_probe_failures_in_stability_loop :
  ∀ env remote (P : string) w (info : FileInfo) (t : Tick) (ts : list Tick),
    files w !! P = Some info →
    (db.GetFileRecord (filelog w) P).2 ≤ 10 →
    ¬ (((db.GetFileRecord (filelog w) P).1.1.1 = db.StatusUploaded
        ∨ (db.GetFileRecord (filelog w) P).1.1.1 = db.StatusVerified)
       ∧ (db.GetFileRecord (filelog w) P).1.1.2 = fi_mod info) →
    ticks env = t :: ts →
    t_elapsed t ≤ duration_or (StabilityTimeout remote) (30 * Minute) →
    t_cancel t = false →
    let th := threshold_of remote in
    let ci := duration_or (CheckInterval remote) (5 * Second) in
    let mw := duration_or (StabilityTimeout remote) (30 * Minute) in
    (t_disk t = None →
       (∀ last cnt w0, cnt < th →
          stability_loop th ci mw P (t :: ts) last cnt w0
          = (log (ESleep ci) (observe P None w0), StatFailed))
       ∧ handleUpload env remote P w
         = log (ESleep ci) (observe P None (log (EQuery P) w))
       ∧ filelog (handleUpload env remote P w) = filelog w
       ∧ trace (handleUpload env remote P w) = trace w ++ [EQuery P; ESleep ci])
    ∧ (∀ fi, t_disk t = Some fi → t_locked t = true →
         ∀ cnt w0, cnt < th →
           stability_loop th ci mw P (t :: ts) (fi_size fi) cnt w0
           = stability_loop th ci mw P ts (fi_size fi) 0
               (log (ESleep ci) (observe P (Some fi) w0))).
Proof.
  intros env remote P w info t ts Hf Hec Hnd Ht He Hx th ci mw. split.
  - intros Hd.
    assert (Hloop : ∀ last cnt w0, cnt < th →
      stability_loop th ci mw P (t :: ts) last cnt w0
      = (log (ESleep ci) (observe P None w0), StatFailed)).
    { intros last cnt w0 Hc. by apply stability_loop_stat_error. }
    assert (E : handleUpload env remote P w
                = log (ESleep ci) (observe P None (log (EQuery P) w))).
    { unfold handleUpload. rewrite Hf.
      destruct (db.GetFileRecord (filelog w) P) as [[[st m] h] ec]. cbn in Hec, Hnd.
      replace (10 <? ec) with false by (symmetry; apply Z.ltb_ge; lia).
      replace ((bool_decide (st = db.StatusUploaded)
                || bool_decide (st = db.StatusVerified)) && (m =? fi_mod info))
        with false.
      2:{ symmetry. apply not_true_is_false. intros Hb.
          apply andb_prop in Hb as [Hs Hm]. apply Hnd. split.
          - apply orb_prop in Hs as [Hs|Hs]; apply bool_decide_eq_true in Hs; auto.
          - by apply Z.eqb_eq. }
      rewrite Ht. fold th ci mw. rewrite Hloop; [done|].
      unfold th, threshold_of. destruct (StabilityThreshold remote <=? 0) eqn:E0; lia. }
    split; [done|]. split; [done|]. rewrite E.
    split; [done|]. cbn. by rewrite <- app_assoc.
  - intros fi Hd Hl cnt w0 Hc. by apply stability_loop_locked.
Qed.

(** A locked file: the first probe fails to open it, the next two pass
    and the upload goes ahead. *)
Lemma C4_locked_then_released_witness :
  let locked := {| t_elapsed := 0; t_cancel := false;
                   t_disk := Some sample.on_disk; t_locked := true |} in
  stability_loop 2 Second (30 * Minute) sample.a_pdf
    [locked; sample.quiet; sample.quiet] 10 1 sample.fresh
  = stability_loop 2 Second (30 * Minute) sample.a_pdf
      [sample.quiet; sample.quiet] 10 0
      (log (ESleep Second) (observe sample.a_pdf (Some sample.on_disk) sample.fresh)).
Proof.
  intros locked.
  refine (proj2 (C4_probe_failures_in_stability_loop
            (sample.server 200 None [locked; sample.quiet; sample.quiet])
            sample.R sample.a_pdf sample.fresh sample.on_disk
            locked [sample.quiet; sample.quiet] _ _ _ _ _ _)
          sample.on_disk _ _ 1 sample.fresh _);
    vm_compute; try (reflexivity || discriminate).
  intros [[H|H] _]; discriminate H.
Defined.

(** C4 as stated fails: the file is missing at the first probe and back,
    unchanged, at the next two.  Had the loop continued with the counter
    at zero it would have reached the threshold; the code has left the
    loop, and the worker ends without hashing or posting. *)
Lemma C4_counterexample_stat_failure_aborts :
  (stability_loop 2 Second (30 * Minute) sample.a_pdf
     [sample.gone; sample.quiet; sample.quiet] 10 1 sample.fresh).2
  = StatFailed
  ∧ (stability_loop 2 Second (30 * Minute) sample.a_pdf
       [sample.quiet; sample.quiet] 10 0 sample.fresh).2
    = Stable
  ∧ trace (handleUpload
             (sample.server 200 None [sample.gone; sample.quiet; sample.quiet])
             sample.R sample.a_pdf sample.fresh)
    = [EQuery "/watch/a.pdf"; ESleep Second].
Proof. vm_compute. repeat split; reflexivity. Qed.

(** C3. The record written by the success path is VERIFIED with the
    computed hash, the mod-time captured by the first [stat] (before
    hashing) and error_count 0, but its file_size is the constant 0 that
    [onSuccess] passes to [UpdateFileStatus]: for the ten-byte sample
    file, uploaded at the first attempt, the stored size is 0. *)
Theorem C3_success_record_has_size_zero :
  (∀ env (path hash : string) (modTime : Z) w,
     ∃ tenant,
       filelog (onSuccess env path hash modTime w) !! path
       = Some {| db.file_hash := hash; db.mod_time := modTime; db.file_size := 0;
                 db.status := db.StatusVerified; db.last_attempt_at := clock env;
                 db.tenant_id := tenant; db.error_count := 0 |})
  ∧ fi_size sample.on_disk = 10
  ∧ files sample.fresh !! sample.a_pdf = Some sample.on_disk
  ∧ filelog (handleUpload (sample.server 200 None [sample.quiet; sample.quiet])
               sample.R sample.a_pdf sample.fresh) !! sample.a_pdf
    = Some {| db.file_hash := sample.local_hash;
              db.mod_time := fi_mod sample.on_disk;
              db.file_size := 0;
              db.status := "VERIFIED";
              db.last_attempt_at := 1700000001;
              db.tenant_id := None;
              db.error_count := 0 |}.
Proof.
  split.
  - intros env path hash modTime w. unfold onSuccess.
    destruct (moveToDone_shape (mover env) path
      (log (EExec path)
         (set_filelog
            (db.UpdateFileStatus (clock env) path db.StatusVerified hash modTime 0
               (filelog w)) w))) as (-> & _).
    cbn. unfold db.UpdateFileStatus.
    destruct (filelog w !! path) as [r|]; rewrite lookup_insert_eq; eauto.
  - vm_compute. repeat split; reflexivity.
Qed.

End StabilityLoop.

(** ** The uploader *)

Section Uploader.
Import config api core.
Implicit Types (w : World) (env : Env) (remote : RemoteConfig).

Lemma extend_nil w : extend [] w = w.
Proof. destruct w. unfold extend. cbn. by rewrite app_nil_r. Qed.

Lemma extend_extend tl1 tl2 w : extend tl2 (extend tl1 w) = extend (tl1 ++ tl2) w.
Proof. unfold extend. cbn. by rewrite app_assoc. Qed.

Lemma log_extend e w : log e w = extend [e] w.
Proof. reflexivity. Qed.

Lemma accepted_iff (r : Response) :
  accepted r = true ↔ transport_err r = false ∧ 200 ≤ StatusCode r < 300.
Proof.
  unfold accepted. rewrite !andb_true_iff, negb_true_iff, Z.leb_le, Z.ltb_lt.
  intuition lia.
Qed.

Lemma failed_rounds_S remote file k :
  failed_rounds remote file (S k)
  = [EPost (upload_url remote) file; ESleep (2 * Second)]
    ++ failed_rounds remote file k.
Proof. reflexivity. Qed.

Lemma posts_app tl1 tl2 : posts (tl1 ++ tl2) = (posts tl1 + posts tl2)%nat.
Proof. unfold posts. by rewrite List.filter_app, length_app. Qed.

Lemma posts_in_failed_rounds remote file k :
  posts (failed_rounds remote file k) = k.
Proof.
  induction k as [|k IH]; [done|].
  rewrite failed_rounds_S, posts_app, IH. reflexivity.
Qed.

(** The retry loop, classified: [k] failed attempts, each followed by a
    full wait, and then one of three endings. *)
Lemma attempts_classify env remote P h m f g :
  ∀ (left i : nat) w,
    ∃ k : nat,
      (k ≤ left)%nat
      ∧ (∀ j : nat, (j < k)%nat →
           accepted (post env (i + j)) = false ∧ cancel_wait env (i + j) = false)
      ∧ ((k = left
          ∧ attempts env remote P h m f g left i w
            = call_error g P (extend (failed_rounds remote P k) w))
         ∨ ((k < left)%nat
            ∧ accepted (post env (i + k)) = true
            ∧ attempts env remote P h m f g left i w
              = call_success f P h m
                  (extend (failed_rounds remote P k ++ [EPost (upload_url remote) P]) w))
         ∨ ((k < left)%nat
            ∧ accepted (post env (i + k)) = false
            ∧ cancel_wait env (i + k) = true
            ∧ attempts env remote P h m f g left i w
              = extend (failed_rounds remote P k ++ [EPost (upload_url remote) P]) w)).
Proof.
  induction left as [|left IH]; intros i w.
  - exists 0%nat. split; [lia|]. split; [intros j Hj; lia|].
    left. split; [done|]. cbn. by rewrite extend_nil.
  - cbn [attempts].
    destruct (accepted (post env i)) eqn:Ha.
    + exists 0%nat. split; [lia|]. split; [intros j Hj; lia|].
      right; left. rewrite Nat.add_0_r. split; [lia|]. split; [done|].
      reflexivity.
    + destruct (cancel_wait env i) eqn:Hc.
      * exists 0%nat. split; [lia|]. split; [intros j Hj; lia|].
        right; right. rewrite Nat.add_0_r. split; [lia|]. done.
      * destruct (IH (S i)
          (log (ESleep (2 * Second)) (log (EPost (upload_url remote) P) w)))
          as (k & Hk & Hbefore & Hend).
        exists (S k). split; [lia|]. split.
        { intros [|j] Hj.
          - by rewrite Nat.add_0_r.
          - replace (i + S j)%nat with (S i + j)%nat by lia. apply Hbefore. lia. }
        rewrite !log_extend, extend_extend in Hend.
        rewrite failed_rounds_S.
        replace (i + S k)%nat with (S i + k)%nat by lia.
        rewrite !log_extend, extend_extend.
        destruct Hend as [(-> & E) | [(Hlt & Ha' & E) | (Hlt & Ha' & Hc' & E)]].
        -- left. split; [done|]. rewrite E, extend_extend. done.
        -- right; left. split; [lia|]. split; [done|].
           rewrite E, extend_extend, <- app_assoc. done.
        -- right; right. split; [lia|]. split; [done|]. split; [done|].
           rewrite E, extend_extend, <- app_assoc. done.
Qed.

Lemma onError_shape env P w :
  filelog (onError env P w) = db.IncrementError (clock env) P (filelog w)
  ∧ files (onError env P w) = files w
  ∧ dirs (onError env P w) = dirs w
  ∧ trace (onError env P w) = trace w ++ [EExec P].
Proof. done. Qed.

Lemma onSuccess_shape env P h m w :
  db.GetFileRecord (filelog (onSuccess env P h m w)) P = (db.StatusVerified, m, h, 0)
  ∧ ∃ dest ok,
      trace (onSuccess env P h m w)
      = trace w ++ [EExec P; EMkdirAll (Join (Dir P) ".done"); ERename P dest ok].
Proof.
  unfold onSuccess.
  destruct (moveToDone_shape (mover env) P
    (log (EExec P)
       (set_filelog
          (db.UpdateFileStatus (clock env) P db.StatusVerified h m 0 (filelog w)) w)))
    as (Hl & dest & ok & Ht & _).
  split.
  - rewrite Hl. cbn. apply get_after_update.
  - exists dest, ok. rewrite Ht. cbn. by rewrite <- app_assoc.
Qed.

(** Failed, uncancelled attempts are skipped over. *)
Lemma attempts_skip env remote P h m f g :
  ∀ (k left i : nat) w,
    (∀ j : nat, (j < k)%nat →
       accepted (post env (i + j)) = false ∧ cancel_wait env (i + j) = false) →
    attempts env remote P h m f g (k + left) i w
    = attempts env remote P h m f g left (i + k) (extend (failed_rounds remote P k) w).
Proof.
  induction k as [|k IH]; intros left i w Hfail.
  - cbn. by rewrite Nat.add_0_r, extend_nil.
  - destruct (Hfail 0%nat ltac:(lia)) as [Ha Hc]. rewrite Nat.add_0_r in Ha, Hc.
    cbn [Nat.add attempts]. rewrite Ha, Hc.
    rewrite IH.
    + rewrite !log_extend, !extend_extend, failed_rounds_S.
      replace (S i + k)%nat with (i + S k)%nat by lia. done.
    + intros j Hj. replace (S i + j)%nat with (i + S j)%nat by lia.
      apply Hfail. lia.
Qed.

(** C6 (amended). With the file readable, every upload cycle consists of
    [k ≤ 3] failed POSTs, each followed by a full two-second wait, and
    then ends in exactly one of three ways; at most 3 POSTs are made and
    an attempt counts as successful exactly when there is no transport
    error and the status is in [200, 300).
    - All three attempts failed and none of the three waits was
      cancelled: [IncrementError] is issued for the path (error_count + 1
      on an existing record, nothing when the path has no record) and no
      file is moved.
    - Attempt [k] succeeded: [onSuccess] runs, no further POST.
    - Shutdown arrived during the wait after failed attempt [k] (the
      third included): the uploader returns at once; File-Log and files
      are unchanged. *)
Theorem C6_retry_policy :
  ∀ env remote (P h : string) (m : Z) w (fi : FileInfo),
    files w !! P = Some fi →
    read_result env = Digest h →
    let res := UploadFile env remote P m (Some (onSuccess env)) (Some (onError env)) w in
    (∀ r, accepted r = true ↔ transport_err r = false ∧ 200 ≤ StatusCode r < 300)
    ∧ ∃ (k : nat) (tl : list Effect),
        (k ≤ 3)%nat
        ∧ (∀ j : nat, (j < k)%nat →
             accepted (post env j) = false ∧ cancel_wait env j = false)
        ∧ trace res = trace w ++ EHash P :: failed_rounds remote P k ++ tl
        ∧ (posts (failed_rounds remote P k ++ tl) ≤ 3)%nat
        ∧ ((k = 3%nat
            ∧ tl = [EExec P]
            ∧ filelog res = db.IncrementError (clock env) P (filelog w)
            ∧ db.GetFileRecord (filelog res) P
              = match filelog w !! P with
                | Some r => (db.status r, db.mod_time r, db.file_hash r,
                             db.error_count r + 1)
                | None => ("", 0, "", 0)
                end
            ∧ files res = files w)
           ∨ ((k < 3)%nat
              ∧ accepted (post env k) = true
              ∧ res = onSuccess env P h m
                        (extend (EHash P :: failed_rounds remote P k
                                 ++ [EPost (upload_url remote) P]) w)
              ∧ ∃ dest ok,
                  tl = [EPost (upload_url remote) P; EExec P;
                        EMkdirAll (Join (Dir P) ".done"); ERename P dest ok])
           ∨ ((k < 3)%nat
              ∧ accepted (post env k) = false
              ∧ cancel_wait env k = true
              ∧ tl = [EPost (upload_url remote) P]
              ∧ filelog res = filelog w
              ∧ files res = files w)).
Proof.
  intros env remote P h m w fi Hf Hread res.
  split; [apply accepted_iff|].
  assert (Eres : res = attempts env remote P h m (Some (onSuccess env))
                         (Some (onError env)) 3 0 (log (EHash P) w)).
  { unfold res, UploadFile. by rewrite Hf, Hread. }
  destruct (attempts_classify env remote P h m (Some (onSuccess env))
              (Some (onError env)) 3 0 (log (EHash P) w))
    as (k & Hk & Hbefore & Hend).
  rewrite <- Eres in Hend. rewrite log_extend, !extend_extend in Hend.
  cbn [Nat.add] in Hend.
  destruct Hend as [(-> & E) | [(Hlt & Ha & E) | (Hlt & Ha & Hc & E)]].
  - exists 3%nat, [EExec P]. split; [lia|]. split; [exact Hbefore|].
    cbn [call_error] in E. rewrite E.
    split; [cbn; by rewrite <- !app_assoc|].
    split; [rewrite posts_app, posts_in_failed_rounds; cbn; lia|].
    left. split; [done|]. split; [done|]. split; [done|]. split; [|done].
    cbn [onError filelog log set_filelog extend].
    destruct (filelog w !! P) as [r|] eqn:Er.
    + by apply increment_present.
    + rewrite increment_absent by done. unfold db.GetFileRecord. by rewrite Er.
  - cbn [call_success] in E.
    destruct (onSuccess_shape env P h m
      (extend ([EHash P] ++ failed_rounds remote P k ++ [EPost (upload_url remote) P]) w))
      as (_ & dest & ok & Ht).
    exists k, [EPost (upload_url remote) P; EExec P;
               EMkdirAll (Join (Dir P) ".done"); ERename P dest ok].
    split; [lia|]. split; [exact Hbefore|].
    split.
    { rewrite E, Ht. cbn [trace extend]. rewrite <- app_assoc. f_equal.
      cbn. f_equal. by rewrite <- app_assoc. }
    split; [rewrite posts_app, posts_in_failed_rounds; cbn; lia|].
    right; left. split; [done|]. split; [done|]. split; [exact E|]. eauto.
  - exists k, [EPost (upload_url remote) P].
    split; [lia|]. split; [exact Hbefore|]. rewrite E.
    split; [done|].
    split; [rewrite posts_app, posts_in_failed_rounds; cbn; lia|].
    right; right. done.
Qed.

(** The server answers 503 three times and nobody shuts the agent down. *)
Lemma C6_three_failures_witness :
  let env := sample.server 503 None [] in
  let w := set_filelog (sample.delivered_then_failed 0) sample.fresh in
  let res := UploadFile env sample.R sample.a_pdf 5
               (Some (onSuccess env)) (Some (onError env)) w in
  db.GetFileRecord (filelog res) sample.a_pdf
  = ("VERIFIED", fi_mod sample.on_disk, sample.local_hash, 1)
  ∧ files res = files w.
Proof.
  intros env w res.
  destruct (C6_retry_policy env sample.R sample.a_pdf sample.local_hash 5 w
              sample.on_disk ltac:(vm_compute; reflexivity) eq_refl)
    as (_ & k & tl & _ & _ & _ & _ &
        [(_ & _ & _ & Hrec & Hfiles) | [(_ & Ha & _) | (_ & _ & Hc & _)]]).
  - split; [|exact Hfiles].
    etransitivity; [exact Hrec|]. vm_compute; reflexivity.
  - vm_compute in Ha. discriminate Ha.
  - vm_compute in Hc. discriminate Hc.
Defined.

(** C6 as stated fails in two ways.  First: the path has no File-Log
    record; after three failed attempts its error_count reads 0, as
    before.  Second: the record exists and shutdown arrives during the
    wait that follows the third failed attempt; three POSTs were made,
    all failed, and the File-Log is what it was. *)
Lemma C6_counterexample_error_count_not_incremented :
  (let res := UploadFile (sample.server 503 None []) sample.R sample.a_pdf 5
                (Some (onSuccess (sample.server 503 None [])))
                (Some (onError (sample.server 503 None []))) sample.fresh in
   posts (trace res) = 3%nat
   ∧ db.GetFileRecord (filelog sample.fresh) sample.a_pdf = ("", 0, "", 0)
   ∧ db.GetFileRecord (filelog res) sample.a_pdf = ("", 0, "", 0))
  ∧ (let env := sample.shutdown_after 2 (sample.server 503 None []) in
     let w := set_filelog (sample.delivered_then_failed 0) sample.fresh in
     let res := UploadFile env sample.R sample.a_pdf 5
                  (Some (onSuccess env)) (Some (onError env)) w in
     trace res
     = [EHash "/watch/a.pdf";
        EPost "https://sift.example/agent/upload" "/watch/a.pdf"; ESleep (2 * Second);
        EPost "https://sift.example/agent/upload" "/watch/a.pdf"; ESleep (2 * Second);
        EPost "https://sift.example/agent/upload" "/watch/a.pdf"]
     ∧ db.GetFileRecord (filelog w) sample.a_pdf
       = ("VERIFIED", fi_mod sample.on_disk, sample.local_hash, 0)
     ∧ filelog res = filelog w).
Proof. vm_compute. repeat split; reflexivity. Qed.

End Uploader.

(** ** The uploader's callbacks *)

Section Callbacks.
Import config api core.
Implicit Types (w : World) (env : Env) (remote : RemoteConfig).

(** C10. Whatever the two callbacks are, one run of the uploader adds
    actions to the trace and then returns, or applies [onSuccess] once,
    or applies [onError] once: never both and never one of them twice.
    When the file cannot be opened or its hash cannot be computed, and
    when shutdown arrives during a back-off wait, no callback is applied;
    hence, with the callbacks [handleUpload] passes, a local read or
    hash failure leaves the File-Log, and so the path's error_count,
    unchanged. *)
Theorem C10_at_most_one_callback :
  ∀ env remote (P : string) (m : Z)
    (f : option (string → string → Z → World → World))
    (g : option (string → World → World)) w,
    let res := UploadFile env remote P m f g w in
    (∃ tl h,
       res = extend tl w
       ∨ res = call_success f P h m (extend tl w)
       ∨ res = call_error g P (extend tl w))
    ∧ (files w !! P = None ∨ read_result env = OpenError → res = w)
    ∧ (read_result env = CopyError → res = w ∨ res = log (EHash P) w)
    ∧ (∀ (h : string) (k : nat),
         is_Some (files w !! P) →
         read_result env = Digest h →
         (k < 3)%nat →
         (∀ j : nat, (j < k)%nat →
            accepted (post env j) = false ∧ cancel_wait env j = false) →
         accepted (post env k) = false →
         cancel_wait env k = true →
         res = extend (EHash P :: failed_rounds remote P k
                       ++ [EPost (upload_url remote) P]) w)
    ∧ (files w !! P = None ∨ read_result env = OpenError
       ∨ read_result env = CopyError →
       filelog (UploadFile env remote P m (Some (onSuccess env))
                  (Some (onError env)) w) = filelog w
       ∧ db.GetFileRecord
           (filelog (UploadFile env remote P m (Some (onSuccess env))
                       (Some (onError env)) w)) P
         = db.GetFileRecord (filelog w) P).
Proof.
  intros env remote P m f g w res.
  assert (Hlocal : files w !! P = None ∨ read_result env = OpenError → res = w).
  { intros [H|H]; unfold res, UploadFile; rewrite H; [done|].
    by destruct (files w !! P). }
  assert (Hcopy : read_result env = CopyError → res = w ∨ res = log (EHash P) w).
  { intros H. unfold res, UploadFile. rewrite H.
    destruct (files w !! P); auto. }
  split; [|split; [exact Hlocal|split; [exact Hcopy|split]]].
  - unfold res, UploadFile.
    destruct (files w !! P) as [fi|];
      [|exists [], ""; left; by rewrite extend_nil].
    destruct (read_result env) as [| |h].
    + exists [], "". left. by rewrite extend_nil.
    + exists [EHash P], "". left. done.
    + destruct (attempts_classify env remote P h m f g 3 0 (log (EHash P) w))
        as (k & _ & _ & [(_ & E) | [(_ & _ & E) | (_ & _ & _ & E)]]);
        rewrite E, log_extend, extend_extend; eexists _, h; eauto.
  - intros h k [fi Hf] Hread Hk Hbefore Ha Hc.
    unfold res, UploadFile. rewrite Hf, Hread.
    replace 3%nat with (k + S (2 - k))%nat by lia.
    rewrite attempts_skip by exact Hbefore.
    cbn [attempts Nat.add]. rewrite Ha, Hc.
    rewrite !log_extend, !extend_extend. done.
  - intros H.
    assert (E : filelog (UploadFile env remote P m (Some (onSuccess env))
                           (Some (onError env)) w) = filelog w).
    { unfold UploadFile. destruct H as [H | [H | H]]; rewrite H; [done| |];
        by destruct (files w !! P). }
    by rewrite E.
Qed.

(** Shutdown during the wait after the second failed attempt. *)
Lemma C10_cancelled_backoff_witness :
  let env := sample.shutdown_after 1 (sample.server 503 None []) in
  UploadFile env sample.R sample.a_pdf 5
    (Some (onSuccess env)) (Some (onError env)) sample.fresh
  = extend [EHash "/watch/a.pdf";
            EPost "https://sift.example/agent/upload" "/watch/a.pdf";
            ESleep (2 * Second);
            EPost "https://sift.example/agent/upload" "/watch/a.pdf"]
      sample.fresh.
Proof.
  intros env.
  refine (proj1 (proj2 (proj2 (proj2
    (C10_at_most_one_callback env sample.R sample.a_pdf 5
       (Some (onSuccess env)) (Some (onError env)) sample.fresh))))
    sample.local_hash 1%nat _ eq_refl _ _ eq_refl eq_refl).
  - vm_compute. eauto.
  - lia.
  - intros [|j] Hj; [split; reflexivity|lia].
Defined.

End Callbacks.

(** ** The integrity handshake *)

Section Handshake.
Import config api.
Implicit Types (w : World) (env : Env) (remote : RemoteConfig).

Lemma attempts_ignore_bodies env (b : nat → option json) remote P h m f g :
  ∀ (left i : nat) w,
    attempts (with_bodies b env) remote P h m f g left i w
    = attempts env remote P h m f g left i w.
Proof.
  induction left as [|left IH]; intros i w; [done|].
  cbn [attempts]. rewrite IH. reflexivity.
Qed.

Lemma UploadFile_ignores_bodies env (b : nat → option json) remote P m f g w :
  UploadFile (with_bodies b env) remote P m f g w = UploadFile env remote P m f g w.
Proof.
  unfold UploadFile. destruct (files w !! P); [|done].
  cbn [read_result with_bodies].
  destruct (read_result env); [done|done|apply attempts_ignore_bodies].
Qed.

Lemma legacy_attempts_skip env stamp remote P h m :
  ∀ (k left i : nat) w,
    (∀ j : nat, (j < k)%nat → accepted (post env (i + j)) = false) →
    legacy.attempts env stamp remote P h m (k + left) i w
    = legacy.attempts env stamp remote P h m left (i + k)
        (extend (failed_rounds remote P k) w).
Proof.
  induction k as [|k IH]; intros left i w Hfail.
  - cbn. by rewrite Nat.add_0_r, extend_nil.
  - pose proof (Hfail 0%nat ltac:(lia)) as Ha. rewrite Nat.add_0_r in Ha.
    cbn [Nat.add legacy.attempts]. rewrite Ha.
    rewrite IH.
    + rewrite !log_extend, !extend_extend, failed_rounds_S.
      replace (S i + k)%nat with (i + S k)%nat by lia. done.
    + intros j Hj. replace (S i + j)%nat with (i + S j)%nat by lia.
      apply Hfail. lia.
Qed.

Lemma legacy_move_filelog me stamp P w :
  filelog (legacy.move me stamp P w) = filelog w.
Proof.
  unfold legacy.move.
  set (dest := if exists_on_disk w _ then _ else _).
  destruct (Rename me P dest w) as [w'|] eqn:E; [|done].
  destruct (Rename_frame _ _ _ _ _ E) as (Hl & _). done.
Qed.

(** X28. The handshake of the earlier [cmd.uploadFile].  When the
    first accepted answer decodes into the map and its string member
    [sha256] differs from the local hash, [markCorrupt] and
    [incrementError] are issued for the path (an existing record becomes
    CORRUPT with error_count + 1, a path without record stays without),
    no further POST is made and no file is moved; when the member is
    absent or not a string, the record is upserted as UPLOADED with
    error_count 0 and the move is attempted. *)
Theorem X28_earlier_uploader_handshake :
  ∀ env (stamp : string) remote (P h : string) (m : Z) w (k : nat)
    (result : gmap string json),
    (k < 3)%nat →
    (∀ j : nat, (j < k)%nat → accepted (post env j) = false) →
    accepted (post env k) = true →
    legacy.Unmarshal (Body (post env k)) = Some result →
    let res := legacy.attempts env stamp remote P h m 3 0 w in
    let w1 := extend (failed_rounds remote P k ++ [EPost (upload_url remote) P]) w in
    (∀ remoteHash : string,
       legacy.string_member result "sha256" = Some remoteHash →
       remoteHash ≠ h →
       res = legacy.exec P (db.IncrementError (clock env) P)
               (legacy.exec P (db.MarkCorrupt (clock env) P) w1)
       ∧ trace res
         = trace w ++ failed_rounds remote P k
           ++ [EPost (upload_url remote) P; EExec P; EExec P]
       ∧ files res = files w
       ∧ (∀ r, filelog w !! P = Some r →
            db.GetFileRecord (filelog res) P
            = (db.StatusCorrupt, db.mod_time r, db.file_hash r,
               db.error_count r + 1))
       ∧ (filelog w !! P = None → filelog res = filelog w))
    ∧ (legacy.string_member result "sha256" = None →
       res = legacy.move (mover env) stamp P
               (legacy.exec P
                  (db.UpdateFileStatus (clock env) P db.StatusUploaded h m 0) w1)
       ∧ db.GetFileRecord (filelog res) P = (db.StatusUploaded, m, h, 0)).
Proof.
  intros env stamp remote P h m w k result Hk Hbefore Ha Hbody res w1.
  assert (E : res = legacy.attempts env stamp remote P h m (S (2 - k)) k
                      (extend (failed_rounds remote P k) w)).
  { unfold res. replace 3%nat with (k + S (2 - k))%nat by lia.
    by rewrite legacy_attempts_skip. }
  cbn [legacy.attempts] in E. rewrite Ha, Hbody in E.
  rewrite log_extend, extend_extend in E. fold w1 in E.
  split.
  - intros remoteHash Hmem Hne. rewrite Hmem in E.
    destruct (decide (remoteHash = h)) as [|_]; [done|].
    split; [exact E|]. rewrite E.
    split; [cbn; by rewrite <- !app_assoc|].
    split; [done|]. split.
    + intros r Hr. cbn [legacy.exec filelog log set_filelog extend w1].
      unfold db.MarkCorrupt. rewrite Hr.
      erewrite increment_present by apply lookup_insert_eq. done.
    + intros Hr. cbn [legacy.exec filelog log set_filelog extend w1].
      by rewrite (corrupt_absent _ _ _ Hr), (increment_absent _ _ _ Hr).
  - intros Hmem. rewrite Hmem in E. split; [exact E|].
    rewrite E, legacy_move_filelog. cbn. apply get_after_update.
Qed.

(** Scenario "integrity mismatch" on the earlier uploader: the path has
    a record and the first answer is 200 with another [sha256]. *)
Lemma X28_mismatch_witness :
  let env := sample.server 200 sample.mismatch_body [] in
  let w := set_filelog (sample.delivered_then_failed 0) sample.fresh in
  let res := legacy.attempts env "20231114221320" sample.R sample.a_pdf
               sample.local_hash 5 3 0 w in
  db.GetFileRecord (filelog res) sample.a_pdf
  = ("CORRUPT", fi_mod sample.on_disk, sample.local_hash, 1)
  ∧ files res = files w
  ∧ trace res = [EPost "https://sift.example/agent/upload" "/watch/a.pdf";
                 EExec "/watch/a.pdf"; EExec "/watch/a.pdf"].
Proof.
  intros env w res.
  destruct (X28_earlier_uploader_handshake env "20231114221320"
              sample.R sample.a_pdf sample.local_hash 5 w 0%nat
              {[ "sha256" := JString "deadbeef" ]}
              ltac:(lia) ltac:(intros j Hj; lia) eq_refl
              ltac:(vm_compute; reflexivity)) as [Hmis _].
  destruct (Hmis "deadbeef" ltac:(vm_compute; reflexivity) ltac:(discriminate))
    as (_ & Ht & Hfiles & Hrec & _).
  split; [|split; [exact Hfiles|exact Ht]].
  exact (Hrec _ ltac:(vm_compute; reflexivity)).
Defined.

(** C2. The uploader the worker calls performs no integrity handshake:
    [UploadFile] never looks at a response body (with any other bodies
    it behaves the same).  At the failing input the path has a VERIFIED
    record of an earlier delivery, the file has been rewritten since,
    and the server answers the first POST with 200 and a [sha256] that
    differs from the local hash.  The worker ends with the record
    VERIFIED at the new mod-time with error_count 0 and with the file
    moved to [.done], where CORRUPT, error_count + 1 and no move are
    required.  The same holds for a path without record.  On the same
    answer the earlier [cmd.uploadFile] leaves the record CORRUPT with
    error_count 1 and moves nothing. *)
Theorem C2_mismatch_is_recorded_as_success :
  (∀ env (b : nat → option json) remote (P : string) (m : Z)
     (f : option (string → string → Z → World → World))
     (g : option (string → World → World)) w,
     UploadFile (with_bodies b env) remote P m f g w
     = UploadFile env remote P m f g w)
  ∧ (let rewritten := {| fi_size := 12; fi_mod := 1700000005000000000 |} in
     let probe := {| t_elapsed := 0; t_cancel := false;
                     t_disk := Some rewritten; t_locked := false |} in
     let env := sample.server 200 sample.mismatch_body [probe; probe] in
     let w := set_filelog (sample.delivered_then_failed 0)
                (set_files {[ sample.a_pdf := rewritten ]} sample.fresh) in
     let res := core.handleUpload env sample.R sample.a_pdf w in
     let old := legacy.attempts env "20231114221320" sample.R sample.a_pdf
                  sample.local_hash (fi_mod rewritten) 3 0 w in
     legacy.Unmarshal sample.mismatch_body
     = Some {[ "sha256" := JString "deadbeef" ]}
     ∧ "deadbeef" ≠ sample.local_hash
     ∧ db.GetFileRecord (filelog w) sample.a_pdf
       = ("VERIFIED", fi_mod sample.on_disk, sample.local_hash, 0)
     ∧ db.GetFileRecord (filelog res) sample.a_pdf
       = ("VERIFIED", 1700000005000000000, sample.local_hash, 0)
     ∧ posts (trace res) = 1%nat
     ∧ files res = {[ "/watch/.done/a.pdf" := rewritten ]}
     ∧ db.GetFileRecord (filelog old) sample.a_pdf
       = ("CORRUPT", fi_mod sample.on_disk, sample.local_hash, 1)
     ∧ files old = files w)
  ∧ (let env := sample.server 200 sample.mismatch_body
                  [sample.quiet; sample.quiet] in
     let res := core.handleUpload env sample.R sample.a_pdf sample.fresh in
     db.GetFileRecord (filelog res) sample.a_pdf
     = ("VERIFIED", fi_mod sample.on_disk, sample.local_hash, 0)
     ∧ posts (trace res) = 1%nat
     ∧ files res = {[ "/watch/.done/a.pdf" := sample.on_disk ]}).
Proof.
  split; [intros; apply UploadFile_ignores_bodies|].
  split.
  - vm_compute. repeat split; try reflexivity. discriminate.
  - vm_compute. repeat split; reflexivity.
Qed.

End Handshake.

(** ** The orchestrator *)

Section Orchestrator.
Import config orchestrator.
Implicit Types (o : Orch) (remote : RemoteConfig).

Lemma orch_inv_init : orch_inv init.
Proof.
  repeat split; intros *; cbn; rewrite ?lookup_empty; intros; try discriminate.
Qed.

Lemma inactive_lookup o p :
  orch_inv o →
  default false (activeProcessing o !! p) = false →
  activeProcessing o !! p = None.
Proof.
  intros (_ & Hact & _) H.
  destruct (activeProcessing o !! p) as [b|] eqn:E; [|done].
  rewrite (Hact _ _ E) in H. discriminate.
Qed.

(** Arming a timer for [p] and storing the new pair keeps the invariant,
    whether or not the previous timer of [p] is stopped first. *)
Lemma rearm_inv o (d sz md : Z) (p : string) (a : gmap nat (string * Z)) :
  orch_inv o →
  activeProcessing o !! p = None →
  (∀ id x, a !! id = Some x → armed o !! id = Some x) →
  orch_inv
    (set_pending
       (<[p := {| lastSize := sz; lastMod := md; timer := next_timer o |}]>
          (pendingStates o))
       (set_timers (<[next_timer o := (p, now o + d)]> a) (S (next_timer o)) o)).
Proof.
  intros (Hpend & Hact & Harm) Hp Hsub. split; [|split]; cbn.
  - intros q st. destruct (decide (q = p)) as [->|Hne].
    + rewrite lookup_insert_eq. intros [= <-]. cbn. split; [done|lia].
    + rewrite lookup_insert_ne by done. intros [? ?]%Hpend. split; [done|lia].
  - exact Hact.
  - intros id x. destruct (decide (id = next_timer o)) as [->|Hne]; [lia|].
    rewrite lookup_insert_ne by done. intros H%Hsub%Harm. lia.
Qed.

Lemma on_event_inv o settling e :
  orch_inv o → orch_inv (on_event settling e o).
Proof.
  intros Hinv. unfold on_event.
  destruct (default false (activeProcessing o !! path e)) eqn:Ea; [done|].
  apply inactive_lookup in Ea; [|done].
  destruct (pendingStates o !! path e) as [state|] eqn:Ep.
  - destruct (negb _ || negb _); [|done].
    apply (rearm_inv o settling (size e) (mod_ns e) (path e)
             (delete (timer state) (armed o))); try done.
    intros id x H. apply lookup_delete_Some in H as [_ H]. done.
  - by apply (rearm_inv o settling (size e) (mod_ns e) (path e) (armed o)).
Qed.

Lemma on_done_inv o msg :
  orch_inv o → orch_inv (on_done msg o).
Proof.
  intros (Hpend & Hact & Harm). unfold on_done.
  destruct (HasPrefix msg "START:").
  - split; [|split]; cbn.
    + intros q st [Hne [? ?]%Hpend]%lookup_delete_Some.
      by rewrite lookup_insert_ne.
    + intros q b. destruct (decide (TrimPrefix msg "START:" = q)) as [<-|Hne].
      * rewrite lookup_insert_eq. congruence.
      * rewrite lookup_insert_ne by done. apply Hact.
    + exact Harm.
  - destruct (HasPrefix msg "FINISH:"); [|done].
    split; [|split]; cbn.
    + intros q st [Hq ?]%Hpend. split; [|done].
      destruct (decide (TrimPrefix msg "FINISH:" = q)) as [<-|Hne].
      * apply lookup_delete_eq.
      * by rewrite lookup_delete_ne.
    + intros q b [_ H]%lookup_delete_Some. by eapply Hact.
    + exact Harm.
Qed.

Lemma step_inv remote l o o' :
  orch_inv o → step remote l o = Some o' → orch_inv o'.
Proof.
  intros Hinv Hstep. destruct l; cbn in Hstep.
  - case_bool_decide; [|done]. by injection Hstep as <-.
  - destruct (halted o); [done|]. destruct (eventChan o) as [|e' q]; [done|].
    injection Hstep as <-. by apply on_event_inv.
  - destruct (armed o !! id) as [[p deadline]|] eqn:E; [|done].
    destruct (deadline <=? now o); [|done]. injection Hstep as <-.
    destruct Hinv as (Hpend & Hact & Harm). split; [|split]; cbn.
    + exact Hpend.
    + exact Hact.
    + intros id' x [_ H]%lookup_delete_Some. by eapply Harm.
  - destruct (outbox o !! i); [|done]. case_bool_decide; [|done].
    by injection Hstep as <-.
  - destruct (halted o); [done|]. destruct (doneChan o) as [|msg q]; [done|].
    injection Hstep as <-. by apply on_done_inv.
  - destruct (workers o !! k) as [[p [|]]|]; try done.
    destruct (_ <? _); [|done]. by injection Hstep as <-.
  - destruct (workers o !! k) as [[p [|]]|]; try done.
    by injection Hstep as <-.
  - destruct (0 <=? d); [|done]. by injection Hstep as <-.
  - by injection Hstep as <-.
Qed.

Lemma run_inv remote ls :
  ∀ o o', orch_inv o → run remote ls o = Some o' → orch_inv o'.
Proof.
  induction ls as [|l ls IH]; intros o o' Hinv Hrun; cbn in Hrun.
  - by injection Hrun as <-.
  - destruct (step remote l o) as [o1|] eqn:E; [|done].
    eapply IH; [|exact Hrun]. by eapply step_inv.
Qed.

Lemma reachable_inv remote o : reachable remote o → orch_inv o.
Proof. intros [ls Hrun]. eapply run_inv; [apply orch_inv_init|exact Hrun]. Qed.

(** X27. In a reachable state where P is pending, the orchestrator
    taking an Event for P from its queue does the following.  If the
    Event carries the stored (size, mod_time) pair, nothing but the queue
    changes: the stored state, the set of armed timers with their
    deadlines and the timer counter are the same.  If the pair differs,
    the stored timer is not armed afterwards, the new pair is stored
    together with a timer that did not exist before, and that timer is
    armed for P with deadline now + settling, where settling is the
    configured settling delay, or 5 s when that does not parse; no other
    timer is touched and the messages already sent on [doneChan] or
    being sent stay where they are. *)
Theorem X27_pending_event_handling :
  ∀ remote o (P : string) (st : fileState) (e : event) (q : list event),
    reachable remote o →
    halted o = false →
    pendingStates o !! P = Some st →
    eventChan o = e :: q →
    path e = P →
    settling_of remote
    = match SettlingDelay remote with Some d => d | None => 5 * Second end
    ∧ ∃ o',
      step remote RecvEvent o = Some o'
      ∧ eventChan o' = q
      ∧ doneChan o' = doneChan o
      ∧ outbox o' = outbox o
      ∧ (size e = lastSize st ∧ mod_ns e = lastMod st →
         o' = set_eventChan q o
         ∧ pendingStates o' = pendingStates o
         ∧ armed o' = armed o
         ∧ next_timer o' = next_timer o)
      ∧ (¬ (size e = lastSize st ∧ mod_ns e = lastMod st) →
         armed o' !! timer st = None
         ∧ ∃ id : nat,
             pendingStates o' !! P
             = Some {| lastSize := size e; lastMod := mod_ns e; timer := id |}
             ∧ id ≠ timer st
             ∧ armed o !! id = None
             ∧ armed o' !! id = Some (P, now o + settling_of remote)
             ∧ (∀ id' : nat, id' ≠ id → id' ≠ timer st →
                  armed o' !! id' = armed o !! id')).
Proof.
  intros remote o P st e q Hreach Hrun Hpend Hq <-.
  split; [reflexivity|].
  pose proof (reachable_inv _ _ Hreach) as (Hp & Hact & Harm).
  destruct (Hp _ _ Hpend) as [Hinactive Hlt].
  eexists. split; [cbn; rewrite Hrun, Hq; reflexivity|].
  unfold on_event. cbn [activeProcessing pendingStates set_eventChan].
  rewrite Hinactive, Hpend. cbn [default].
  destruct (negb (size e =? lastSize st) || negb (mod_ns e =? lastMod st)) eqn:Ech.
  - split; [done|]. split; [done|]. split; [done|]. split.
    + intros [Hs Hm]. rewrite Hs, Hm, !Z.eqb_refl in Ech. discriminate.
    + intros _. cbn. split.
      * rewrite lookup_insert_ne by lia. apply lookup_delete_eq.
      * exists (next_timer o). split; [apply lookup_insert_eq|].
        split; [lia|]. split.
        { destruct (armed o !! next_timer o) as [x|] eqn:E; [|done].
          apply Harm in E. lia. }
        split; [apply lookup_insert_eq|].
        intros id' Hne1 Hne2.
        rewrite lookup_insert_ne by done. by rewrite lookup_delete_ne.
  - split; [done|]. split; [done|]. split; [done|]. split.
    + done.
    + intros Hdiff. exfalso. apply Hdiff.
      apply orb_false_elim in Ech as [Hs Hm].
      apply negb_false_iff in Hs, Hm. by rewrite Z.eqb_eq in Hs, Hm.
Qed.

(** A poll hit that repeats the stored pair while [a.pdf] is settling. *)
Lemma X27_redundant_event_witness :
  ∃ o o',
    run sample.R (sample.settling
                  ++ [Emit (Event sample.a_pdf 10 1700000000000000077)]) init
    = Some o
    ∧ step sample.R RecvEvent o = Some o'
    ∧ pendingStates o' = pendingStates o
    ∧ armed o' = armed o
    ∧ armed o' !! 0%nat = Some (sample.a_pdf, 2 * Second).
Proof.
  destruct (run sample.R (sample.settling
              ++ [Emit (Event sample.a_pdf 10 1700000000000000077)]) init)
    as [o|] eqn:Hrun; [|vm_compute in Hrun; discriminate Hrun].
  assert (Ho : Some o = Some (set_eventChan
                 [Event sample.a_pdf 10 1700000000000000077]
                 (on_event (settling_of sample.R)
                    (Event sample.a_pdf 10 1700000000000000077) init)))
    by (rewrite <- Hrun; vm_compute; reflexivity).
  injection Ho as Ho.
  destruct (X27_pending_event_handling sample.R o sample.a_pdf
              {| lastSize := 10; lastMod := 1700000000000000077; timer := 0 |}
              (Event sample.a_pdf 10 1700000000000000077) [])
    as (_ & o' & Hstep & _ & _ & _ & Hsame & _).
  - eexists. exact Hrun.
  - rewrite Ho. reflexivity.
  - rewrite Ho. vm_compute. reflexivity.
  - rewrite Ho. reflexivity.
  - reflexivity.
  - destruct (Hsame (conj eq_refl eq_refl)) as (_ & Hp & Ha & _).
    exists o, o'. split; [reflexivity|]. split; [exact Hstep|].
    split; [exact Hp|]. split; [exact Ha|].
    rewrite Ha, Ho. vm_compute. reflexivity.
Defined.

(** C7. The differing-pair branch does not cancel a settling timer that
    has already fired.  After the first run below the path is pending
    with the stored pair (10, m1); its timer 0 has expired, so it is no
    longer armed, and its START waits in [doneChan]; an Event with the
    pair (20, m2) waits in [eventChan].  Taking that Event stores the
    new pair with the fresh timer 1, due at 4 s, and leaves the START
    where it is.  The orchestrator then takes the START at 2 s: the
    pending entry with the new pair is dropped and a worker is
    dispatched for the path, two seconds before the fresh settling
    delay has passed, while timer 1 stays armed. *)
Theorem C7_fired_timer_is_not_cancelled :
  let pending_fired :=
    sample.settling
    ++ [Advance (2 * Second); Fire 0; Deliver 0;
        Emit (Event sample.a_pdf 20 1700000002000000000)] in
  (λ o, (halted o, pendingStates o !! sample.a_pdf, eventChan o,
         armed o !! 0%nat, doneChan o))
    <$> run sample.R pending_fired init
  = Some (false,
          Some {| lastSize := 10; lastMod := 1700000000000000077; timer := 0 |},
          [Event sample.a_pdf 20 1700000002000000000],
          None, ["START:/watch/a.pdf"])
  ∧ (λ o, (pendingStates o !! sample.a_pdf, armed o !! 0%nat, armed o !! 1%nat,
           doneChan o, now o))
      <$> run sample.R (pending_fired ++ [RecvEvent]) init
    = Some (Some {| lastSize := 20; lastMod := 1700000002000000000; timer := 1 |},
            None, Some (sample.a_pdf, 4 * Second),
            ["START:/watch/a.pdf"], 2 * Second)
  ∧ (λ o, (now o, workers o !! 0%nat, pendingStates o !! sample.a_pdf,
           activeProcessing o !! sample.a_pdf, armed o !! 1%nat))
      <$> run sample.R (pending_fired ++ [RecvEvent; RecvDone]) init
    = Some (2 * Second, Some (sample.a_pdf, Queued), None, Some true,
            Some (sample.a_pdf, 4 * Second)).
Proof. vm_compute. repeat split; reflexivity. Qed.

(** C1. At-most-one-active is violated by the interleaving
    [sample.race]: the START sent by the first settling timer is already
    queued when an Event with a changed pair is taken for the still
    pending path; [Stop] has no effect on the fired timer, a second timer
    is armed, and each START dispatches a worker.  At the end two
    workers are inside [handleUpload] for the same path. *)
Theorem C1_two_workers_on_one_path :
  ∃ o,
    run sample.R sample.race init = Some o
    ∧ reachable sample.R o
    ∧ processing sample.a_pdf o = [1%nat; 0%nat]
    ∧ length (processing sample.a_pdf o) = 2%nat.
Proof.
  destruct (run sample.R sample.race init) as [o|] eqn:Hrun;
    [|vm_compute in Hrun; discriminate Hrun].
  exists o. split; [reflexivity|]. split; [by exists sample.race|].
  assert (Hp : processing sample.a_pdf <$> run sample.R sample.race init
               = Some [1%nat; 0%nat]) by (vm_compute; reflexivity).
  rewrite Hrun in Hp. injection Hp as ->. done.
Qed.

End Orchestrator.

(** ** More File-Log laws *)

Section FileLogMore.
Import db.
Implicit Types (t : gmap string row) (path hash st : string).

Lemma corrupt_other now path t q :
  q ≠ path → MarkCorrupt now path t !! q = t !! q.
Proof.
  intros Hq. unfold MarkCorrupt.
  destruct (t !! path); [by rewrite lookup_insert_ne | done].
Qed.

(** X1. [ResetHistory] with the empty target empties the table: every
    path reads back as the zero tuple.  With a non-empty target only
    that path is forgotten; every other row is kept as it was. *)
Theorem X1_reset_history :
  ∀ t (target q : string),
    (target = "" → GetFileRecord (ResetHistory target t) q = ("", 0, "", 0))
    ∧ (target ≠ "" →
       GetFileRecord (ResetHistory target t) target = ("", 0, "", 0)
       ∧ (q ≠ target → ResetHistory target t !! q = t !! q)).
Proof.
  intros t target q. unfold ResetHistory, GetFileRecord. split.
  - intros ->. by rewrite decide_False, lookup_empty by auto.
  - intros Hne. rewrite decide_True by done. split.
    + by rewrite lookup_delete_eq.
    + intros Hq. by rewrite lookup_delete_ne.
Qed.

Lemma X1_reset_one_path_witness :
  GetFileRecord (ResetHistory sample.a_pdf (sample.delivered_then_failed 11))
    sample.a_pdf = ("", 0, "", 0).
Proof.
  exact (proj1 (proj2 (X1_reset_history (sample.delivered_then_failed 11)
                         sample.a_pdf sample.a_pdf) ltac:(discriminate))).
Defined.

(** X2. On a path that has a row, [n] calls of [IncrementError] raise
    error_count by exactly [n] and leave status, mod_time and hash as
    they were. *)
Theorem X2_increment_counts :
  ∀ (n : nat) (now : Z) (path : string) t (r : row),
    t !! path = Some r →
    GetFileRecord (increment_times n now path t) path
    = (status r, mod_time r, file_hash r, error_count r + Z.of_nat n).
Proof. intros. by apply increment_times_count. Qed.

Lemma X2_eleven_failures_witness :
  GetFileRecord (sample.delivered_then_failed 11) sample.a_pdf
  = ("VERIFIED", fi_mod sample.on_disk, sample.local_hash, 0 + Z.of_nat 11).
Proof.
  refine (X2_increment_counts 11 1700000002 sample.a_pdf
            (UpdateFileStatus 1700000001 sample.a_pdf StatusVerified
               sample.local_hash (fi_mod sample.on_disk) 0 (∅ : gmap string row))
            {| file_hash := sample.local_hash; mod_time := fi_mod sample.on_disk;
               file_size := 0; status := StatusVerified;
               last_attempt_at := 1700000001; tenant_id := None;
               error_count := 0 |} _).
  vm_compute; reflexivity.
Defined.

(** X3. The three writing statements act on their own path only: the
    row of any other path is the same before and after
    [UpdateFileStatus], [IncrementError] and [MarkCorrupt]. *)
Theorem X3_writes_touch_one_path :
  ∀ t (now : Z) (path q st hash : string) (modTime size : Z),
    q ≠ path →
    UpdateFileStatus now path st hash modTime size t !! q = t !! q
    ∧ IncrementError now path t !! q = t !! q
    ∧ MarkCorrupt now path t !! q = t !! q.
Proof.
  intros t now path q st hash modTime size Hq.
  split; [by apply update_other|].
  split; [by apply increment_other|by apply corrupt_other].
Qed.

Lemma X3_other_path_witness :
  IncrementError 5 sample.a_pdf (sample.delivered_then_failed 0) !! "/watch/b.pdf"
  = sample.delivered_then_failed 0 !! "/watch/b.pdf".
Proof.
  exact (proj1 (proj2 (X3_writes_touch_one_path (sample.delivered_then_failed 0)
                         5 sample.a_pdf "/watch/b.pdf" "" "" 0 0
                         ltac:(discriminate)))).
Defined.

(** X4. The upsert is last-write-wins: two [UpdateFileStatus] on one
    path leave the table that the second alone would leave, and the
    table gains at most the one path. *)
Theorem X4_upsert_last_write_wins :
  ∀ t (path : string) (n1 n2 m1 m2 z1 z2 : Z) (s1 s2 h1 h2 : string),
    UpdateFileStatus n2 path s2 h2 m2 z2 (UpdateFileStatus n1 path s1 h1 m1 z1 t)
    = UpdateFileStatus n2 path s2 h2 m2 z2 t
    ∧ dom (UpdateFileStatus n1 path s1 h1 m1 z1 t) = {[path]} ∪ dom t.
Proof.
  intros. split.
  - unfold UpdateFileStatus at 1 2.
    destruct (t !! path) as [r|] eqn:E; rewrite lookup_insert_eq; cbn;
      rewrite insert_insert_eq; unfold UpdateFileStatus; by rewrite E.
  - unfold UpdateFileStatus. destruct (t !! path); by rewrite dom_insert_L.
Qed.

End FileLogMore.

(** ** The worker as a whole *)

Section WorkerCycle.
Import config api core.
Implicit Types (w : World) (env : Env) (remote : RemoteConfig).

Lemma posts_sleeps n d : posts (replicate n (ESleep d)) = 0%nat.
Proof. induction n as [|n IH]; [done|]. cbn. exact IH. Qed.

Lemma threshold_pos remote : 0 < threshold_of remote.
Proof.
  unfold threshold_of. destruct (StabilityThreshold remote <=? 0) eqn:E; lia.
Qed.

Lemma stability_loop_done th ci mw P ts last cnt w :
  th ≤ cnt → stability_loop th ci mw P ts last cnt w = (w, Stable).
Proof.
  intros H. destruct ts; cbn [stability_loop];
    by replace (cnt <? th) with false by (symmetry; apply Z.ltb_ge; lia).
Qed.

(** A [Stable] exit has consumed a run of quiet probes of one size that
    fills the counter, every probe before the deadline, one sleep each. *)
Lemma stable_exit_run th ci mw P :
  ∀ ts last cnt w w',
    0 ≤ cnt < th →
    stability_loop th ci mw P ts last cnt w = (w', Stable) →
    ∃ pre suf rest s,
      ts = pre ++ suf ++ rest
      ∧ Forall (quiet_at s) suf
      ∧ Forall (λ t, t_elapsed t ≤ mw) (pre ++ suf)
      ∧ trace w' = trace w ++ replicate (length pre + length suf) (ESleep ci)
      ∧ ((pre = [] ∧ s = last ∧ Z.of_nat (length suf) = th - cnt)
         ∨ Z.of_nat (length suf) = th).
Proof.
  induction ts as [|t ts IH]; intros last cnt w w' Hc Hloop;
    cbn [stability_loop] in Hloop;
    replace (cnt <? th) with true in Hloop by (symmetry; apply Z.ltb_lt; lia);
    [done|].
  destruct (mw <? t_elapsed t) eqn:Et; [done|]. apply Z.ltb_ge in Et.
  destruct (t_cancel t) eqn:Ex; [done|].
  destruct (t_disk t) as [fi|] eqn:Ed;
    cbn [observe log set_files files] in Hloop;
    [rewrite lookup_insert_eq in Hloop|by rewrite lookup_delete_eq in Hloop].
  set (w1 := {| filelog := filelog w; files := <[P:=fi]> (files w);
                dirs := dirs w; trace := trace w ++ [ESleep ci] |}) in *.
  assert (Htr : ∀ n, trace w1 ++ replicate n (ESleep ci)
                     = trace w ++ replicate (S n) (ESleep ci)).
  { intros n. cbn. by rewrite <- app_assoc. }
  assert (Hreset : ∀ l, stability_loop th ci mw P ts l 0 w1 = (w', Stable) →
    ∃ pre suf rest s,
      t :: ts = pre ++ suf ++ rest
      ∧ Forall (quiet_at s) suf
      ∧ Forall (λ t, t_elapsed t ≤ mw) (pre ++ suf)
      ∧ trace w' = trace w ++ replicate (length pre + length suf) (ESleep ci)
      ∧ ((pre = [] ∧ s = last ∧ Z.of_nat (length suf) = th - cnt)
         ∨ Z.of_nat (length suf) = th)).
  { intros l Hl.
    destruct (IH l 0 w1 w' ltac:(lia) Hl)
      as (pre & suf & rest & s & -> & Hq & He & Ht & Hd).
    exists (t :: pre), suf, rest, s. split; [done|]. split; [done|].
    split; [by constructor|].
    split; [rewrite Ht, Htr; done|].
    right. destruct Hd as [(_ & _ & Hlen)|Hlen]; lia. }
  destruct (negb (fi_size fi =? last)) eqn:Esz; [by eapply Hreset|].
  apply negb_false_iff, Z.eqb_eq in Esz.
  destruct (t_locked t) eqn:El; [by eapply Hreset|].
  assert (Hquiet : quiet_at last t) by (repeat split; eauto).
  destruct (decide (cnt + 1 < th)) as [Hlt|Hge].
  - destruct (IH last (cnt + 1) w1 w' ltac:(lia) Hloop)
      as (pre & suf & rest & s & -> & Hq & He & Ht & Hd).
    destruct Hd as [(-> & -> & Hlen)|Hlen].
    + exists [], (t :: suf), rest, last. split; [done|].
      split; [by constructor|]. split; [by constructor|].
      split; [rewrite Ht, Htr; done|].
      left. repeat split. cbn [length]. lia.
    + exists (t :: pre), suf, rest, s. split; [done|]. split; [done|].
      split; [by constructor|].
      split; [rewrite Ht, Htr; done|]. by right.
  - rewrite stability_loop_done in Hloop by lia. injection Hloop as <-.
    exists [], [t], ts, last. split; [done|].
    split; [by constructor|]. split; [by repeat constructor|].
    split; [done|]. left. repeat split. cbn [length]. lia.
Qed.

(** The five ways one processing cycle can go. *)
Lemma handleUpload_cases env remote P w :
  handleUpload env remote P w = w
  ∨ handleUpload env remote P w = log (EQuery P) w
  ∨ handleUpload env remote P w = moveToDone (mover env) P (log (EQuery P) w)
  ∨ ∃ info w1 x,
      files w !! P = Some info
      ∧ stability_loop (threshold_of remote)
          (duration_or (CheckInterval remote) (5 * Second))
          (duration_or (StabilityTimeout remote) (30 * Minute))
          P (ticks env) (fi_size info) 0 (log (EQuery P) w) = (w1, x)
      ∧ ((x ≠ Stable ∧ handleUpload env remote P w = w1)
         ∨ (x = Stable
            ∧ handleUpload env remote P w
              = UploadFile env remote P (fi_mod info)
                  (Some (onSuccess env)) (Some (onError env)) w1)).
Proof.
  unfold handleUpload. destruct (files w !! P) as [info|]; [|by left].
  destruct (db.GetFileRecord (filelog w) P) as [[[st m] h] ec].
  destruct (10 <? ec); [by right; left|].
  destruct (_ && _); [by right; right; left|].
  right; right; right.
  destruct (stability_loop _ _ _ _ _ _ _ _) as [w1 x] eqn:E.
  exists info, w1, x. split; [done|]. split; [done|].
  destruct x; [right; done|left; done..].
Qed.

(** What the upload step does to the File-Log and how many POSTs it makes. *)
Lemma UploadFile_effects env remote P m w :
  let res := UploadFile env remote P m (Some (onSuccess env)) (Some (onError env)) w in
  (filelog res = filelog w ∧ files res = files w
   ∧ (posts (trace w) ≤ posts (trace res))%nat)
  ∨ (∃ h k, (k < 3)%nat ∧ accepted (post env k) = true
       ∧ (posts (trace w) < posts (trace res))%nat
       ∧ filelog res
         = db.UpdateFileStatus (clock env) P db.StatusVerified h m 0 (filelog w))
  ∨ ((∀ j, (j < 3)%nat → accepted (post env j) = false)
     ∧ (posts (trace w) < posts (trace res))%nat
     ∧ files res = files w
     ∧ filelog res = db.IncrementError (clock env) P (filelog w)).
Proof.
  intros res. unfold res, UploadFile.
  destruct (files w !! P); [|left; done].
  destruct (read_result env) as [| |h]; [left; done|left|].
  { repeat split. cbn [trace log]. rewrite posts_app. lia. }
  destruct (attempts_classify env remote P h m (Some (onSuccess env))
              (Some (onError env)) 3 0 (log (EHash P) w))
    as (k & Hk & Hbefore & [(-> & E) | [(Hlt & Ha & E) | (Hlt & Ha & Hc & E)]]);
    rewrite E; clear E.
  - right; right. split; [intros j Hj; by apply (Hbefore j)|].
    cbn [call_error onError trace log set_filelog extend filelog files].
    rewrite !posts_app, posts_in_failed_rounds. cbn. split; [lia|done].
  - right; left. exists h, k. split; [done|]. split; [done|].
    destruct (onSuccess_shape env P h m
      (extend (failed_rounds remote P k ++ [EPost (upload_url remote) P])
         (log (EHash P) w))) as (_ & dest & ok & Ht).
    cbn [call_success]. rewrite Ht. split.
    + cbn [trace log extend]. rewrite !posts_app, posts_in_failed_rounds. cbn. lia.
    + unfold onSuccess.
      destruct (moveToDone_shape (mover env) P
        (log (EExec P)
           (set_filelog
              (db.UpdateFileStatus (clock env) P db.StatusVerified h m 0
                 (filelog (extend (failed_rounds remote P k
                                   ++ [EPost (upload_url remote) P])
                             (log (EHash P) w))))
              (extend (failed_rounds remote P k ++ [EPost (upload_url remote) P])
                 (log (EHash P) w))))) as (-> & _).
      done.
  - left. repeat split. cbn [trace log extend]. rewrite !posts_app. lia.
Qed.

Lemma moved_posts me P w :
  posts (trace (moveToDone me P w)) = posts (trace w).
Proof.
  destruct (moveToDone_shape me P w) as (_ & dest & ok & -> & _).
  rewrite posts_app. cbn. lia.
Qed.

Lemma unstable_exit_frame th ci mw P ts last w :
  filelog (stability_loop th ci mw P ts last 0 (log (EQuery P) w)).1 = filelog w
  ∧ posts (trace (stability_loop th ci mw P ts last 0 (log (EQuery P) w)).1)
    = posts (trace w).
Proof.
  destruct (stability_loop_frame th ci mw P ts last 0 (log (EQuery P) w))
    as (Hl & n & Ht).
  split; [done|]. rewrite Ht. cbn [trace log].
  rewrite !posts_app, posts_sleeps. cbn. lia.
Qed.

(** X5. If a processing cycle makes any POST, then the probes of its
    stability loop contained a run of exactly [threshold] consecutive
    probes at which the file had one and the same size and could be
    opened, and every probe up to the end of that run came before the
    stability deadline. *)
Theorem X5_post_needs_quiet_run :
  ∀ env remote (P : string) w,
    posts (trace (handleUpload env remote P w)) ≠ posts (trace w) →
    ∃ pre suf rest s,
      ticks env = pre ++ suf ++ rest
      ∧ Z.of_nat (length suf) = threshold_of remote
      ∧ Forall (quiet_at s) suf
      ∧ Forall (λ t, t_elapsed t
                     ≤ duration_or (StabilityTimeout remote) (30 * Minute))
          (pre ++ suf).
Proof.
  intros env remote P w Hposts.
  destruct (handleUpload_cases env remote P w)
    as [E | [E | [E | (info & w1 & x & Hf & Hloop & [(Hx & E) | (-> & E)])]]].
  - by rewrite E in Hposts.
  - rewrite E in Hposts. cbn [trace log] in Hposts.
    rewrite posts_app in Hposts. cbn in Hposts. lia.
  - rewrite E, moved_posts in Hposts. cbn [trace log] in Hposts.
    rewrite posts_app in Hposts. cbn in Hposts. lia.
  - rewrite E in Hposts.
    pose proof (unstable_exit_frame (threshold_of remote)
      (duration_or (CheckInterval remote) (5 * Second))
      (duration_or (StabilityTimeout remote) (30 * Minute))
      P (ticks env) (fi_size info) w) as [_ Hp].
    rewrite Hloop in Hp. cbn in Hp. lia.
  - pose proof (threshold_pos remote) as Hth.
    apply stable_exit_run in Hloop
      as (pre & suf & rest & s & Hts & Hq & He & _ & Hd); [|lia].
    exists pre, suf, rest, s. split; [done|]. split; [|done].
    destruct Hd as [(_ & _ & Hlen)|Hlen]; lia.
Qed.

Lemma X5_happy_path_witness :
  ∃ pre suf rest s,
    [sample.quiet; sample.quiet] = pre ++ suf ++ rest
    ∧ Z.of_nat (length suf) = 2
    ∧ Forall (quiet_at s) suf
    ∧ Forall (λ t, t_elapsed t ≤ 30 * Minute) (pre ++ suf).
Proof.
  refine (X5_post_needs_quiet_run
            (sample.server 200 None [sample.quiet; sample.quiet])
            sample.R sample.a_pdf sample.fresh _).
  vm_compute. discriminate.
Defined.

(** X6. A file that cannot be opened for read-write at any probe is
    never uploaded: the cycle makes no POST and leaves the File-Log,
    hence the error_count, as it was. *)
Theorem X6_locked_file_is_not_uploaded :
  ∀ env remote (P : string) w,
    Forall (λ t, t_locked t = true) (ticks env) →
    posts (trace (handleUpload env remote P w)) = posts (trace w)
    ∧ filelog (handleUpload env remote P w) = filelog w.
Proof.
  intros env remote P w Hlocked.
  destruct (handleUpload_cases env remote P w)
    as [E | [E | [E | (info & w1 & x & Hf & Hloop & [(Hx & E) | (-> & E)])]]];
    rewrite E; clear E.
  - done.
  - cbn [trace log]. rewrite posts_app. cbn. split; [lia|done].
  - rewrite moved_posts. cbn [trace log]. rewrite posts_app. cbn.
    split; [lia|]. by destruct (moveToDone_shape (mover env) P (log (EQuery P) w)).
  - pose proof (unstable_exit_frame (threshold_of remote)
      (duration_or (CheckInterval remote) (5 * Second))
      (duration_or (StabilityTimeout remote) (30 * Minute))
      P (ticks env) (fi_size info) w) as [Hl Hp].
    rewrite Hloop in Hl, Hp. done.
  - exfalso. pose proof (threshold_pos remote) as Hth.
    apply stable_exit_run in Hloop
      as (pre & suf & rest & s & Hts & Hq & _ & _ & Hd); [|lia].
    destruct suf as [|t suf]; [cbn in Hd; destruct Hd as [(_ & _ & ?)|?]; lia|].
    apply Forall_cons in Hq as [(_ & Hfree & _) _].
    rewrite Hts in Hlocked.
    apply Forall_app in Hlocked as [_ Hlocked].
    apply Forall_app in Hlocked as [Hlocked _].
    apply Forall_cons in Hlocked as [Ht _]. congruence.
Qed.

Lemma X6_held_open_witness :
  let held := {| t_elapsed := 0; t_cancel := false;
                 t_disk := Some sample.on_disk; t_locked := true |} in
  posts (trace (handleUpload (sample.server 200 None [held; held; held])
                  sample.R sample.a_pdf sample.fresh)) = 0%nat
  ∧ filelog (handleUpload (sample.server 200 None [held; held; held])
               sample.R sample.a_pdf sample.fresh) = ∅.
Proof.
  intros held.
  refine (X6_locked_file_is_not_uploaded
            (sample.server 200 None [held; held; held])
            sample.R sample.a_pdf sample.fresh _).
  repeat constructor.
Defined.

(** X7. A processing cycle never writes the File-Log without having
    made a POST: a cycle that ends by a missing file, the error-count
    lock-out, the already-delivered branch, a stability timeout, a
    shutdown or a failed [stat], open or hash leaves every record
    unchanged. *)
Theorem X7_no_post_no_filelog_write :
  ∀ env remote (P : string) w,
    posts (trace (handleUpload env remote P w)) = posts (trace w) →
    filelog (handleUpload env remote P w) = filelog w.
Proof.
  intros env remote P w Hposts.
  destruct (handleUpload_cases env remote P w)
    as [E | [E | [E | (info & w1 & x & Hf & Hloop & [(Hx & E) | (-> & E)])]]];
    rewrite E in *; clear E.
  - done.
  - done.
  - by destruct (moveToDone_shape (mover env) P (log (EQuery P) w)).
  - pose proof (unstable_exit_frame (threshold_of remote)
      (duration_or (CheckInterval remote) (5 * Second))
      (duration_or (StabilityTimeout remote) (30 * Minute))
      P (ticks env) (fi_size info) w) as [Hl _].
    by rewrite Hloop in Hl.
  - pose proof (unstable_exit_frame (threshold_of remote)
      (duration_or (CheckInterval remote) (5 * Second))
      (duration_or (StabilityTimeout remote) (30 * Minute))
      P (ticks env) (fi_size info) w) as [Hl Hp].
    rewrite Hloop in Hl, Hp. cbn [fst] in Hl, Hp.
    destruct (UploadFile_effects env remote P (fi_mod info) w1)
      as [(Hfl & _ & _) | [(h & k & _ & _ & Hlt & _) | (_ & Hlt & _)]].
    + congruence.
    + lia.
    + lia.
Qed.

Lemma X7_timeout_witness :
  let late := {| t_elapsed := 31 * Minute; t_cancel := false;
                 t_disk := Some sample.on_disk; t_locked := false |} in
  filelog (handleUpload (sample.server 500 None [late]) sample.R sample.a_pdf
             (set_filelog (sample.delivered_then_failed 3)
                (set_files {[ sample.a_pdf := {| fi_size := 10; fi_mod := 5 |} ]}
                   sample.fresh)))
  = sample.delivered_then_failed 3.
Proof.
  intros late.
  refine (X7_no_post_no_filelog_write (sample.server 500 None [late]) sample.R
            sample.a_pdf _ _).
  vm_compute. reflexivity.
Defined.

(** X8. One processing cycle changes the File-Log by at most one
    statement, and only on its own path: the table afterwards is the
    table before, or that table after one VERIFIED upsert of the path
    with error_count 0, or after one [IncrementError] of the path; the
    record of every other path is untouched. *)
Theorem X8_cycle_writes_own_path_once :
  ∀ env remote (P : string) w,
    (filelog (handleUpload env remote P w) = filelog w
     ∨ (∃ h m, filelog (handleUpload env remote P w)
               = db.UpdateFileStatus (clock env) P db.StatusVerified h m 0 (filelog w))
     ∨ filelog (handleUpload env remote P w)
       = db.IncrementError (clock env) P (filelog w))
    ∧ ∀ q, q ≠ P → filelog (handleUpload env remote P w) !! q = filelog w !! q.
Proof.
  intros env remote P w.
  assert (H : filelog (handleUpload env remote P w) = filelog w
     ∨ (∃ h m, filelog (handleUpload env remote P w)
               = db.UpdateFileStatus (clock env) P db.StatusVerified h m 0 (filelog w))
     ∨ filelog (handleUpload env remote P w)
       = db.IncrementError (clock env) P (filelog w)).
  { destruct (handleUpload_cases env remote P w)
      as [E | [E | [E | (info & w1 & x & Hf & Hloop & [(Hx & E) | (-> & E)])]]];
      rewrite E; clear E.
    - by left.
    - by left.
    - left. by destruct (moveToDone_shape (mover env) P (log (EQuery P) w)).
    - left. pose proof (unstable_exit_frame (threshold_of remote)
        (duration_or (CheckInterval remote) (5 * Second))
        (duration_or (StabilityTimeout remote) (30 * Minute))
        P (ticks env) (fi_size info) w) as [Hl _].
      by rewrite Hloop in Hl.
    - pose proof (unstable_exit_frame (threshold_of remote)
        (duration_or (CheckInterval remote) (5 * Second))
        (duration_or (StabilityTimeout remote) (30 * Minute))
        P (ticks env) (fi_size info) w) as [Hl _].
      rewrite Hloop in Hl. cbn [fst] in Hl.
      destruct (UploadFile_effects env remote P (fi_mod info) w1)
        as [(Hfl & _) | [(h & k & _ & _ & _ & Hfl) | (_ & _ & _ & Hfl)]];
        rewrite Hfl, Hl; eauto. }
  split; [exact H|].
  intros q Hq. destruct H as [-> | [(h & m & ->) | ->]].
  - done.
  - by apply update_other.
  - by apply increment_other.
Qed.

Lemma cycle_without_record env remote P w :
  filelog w !! P = None →
  (∀ j, (j < 3)%nat → accepted (post env j) = false) →
  filelog (handleUpload env remote P w) = filelog w.
Proof.
  intros Hnone Hrej.
  destruct (handleUpload_cases env remote P w)
    as [E | [E | [E | (info & w1 & x & Hf & Hloop & [(Hx & E) | (-> & E)])]]];
    rewrite E; clear E.
  - done.
  - done.
  - by destruct (moveToDone_shape (mover env) P (log (EQuery P) w)).
  - pose proof (unstable_exit_frame (threshold_of remote)
      (duration_or (CheckInterval remote) (5 * Second))
      (duration_or (StabilityTimeout remote) (30 * Minute))
      P (ticks env) (fi_size info) w) as [Hl _].
    by rewrite Hloop in Hl.
  - pose proof (unstable_exit_frame (threshold_of remote)
      (duration_or (CheckInterval remote) (5 * Second))
      (duration_or (StabilityTimeout remote) (30 * Minute))
      P (ticks env) (fi_size info) w) as [Hl _].
    rewrite Hloop in Hl. cbn [fst] in Hl.
    destruct (UploadFile_effects env remote P (fi_mod info) w1)
      as [(Hfl & _) | [(h & k & Hk & Ha & _) | (_ & _ & _ & Hfl)]].
    + congruence.
    + rewrite Hrej in Ha by done. discriminate.
    + rewrite Hfl, Hl. by apply increment_absent.
Qed.

(** X9. A path that has no File-Log record never gets one from failed
    uploads: across any number of processing cycles in which the server
    accepts no POST, the File-Log stays exactly as it was, so the
    error_count of a never-delivered file stays at 0 and the lock-out
    after ten errors cannot set in for it. *)
Theorem X9_undelivered_path_collects_no_errors :
  ∀ (envs : list Env) remote (P : string) w,
    filelog w !! P = None →
    Forall (λ env, ∀ j, (j < 3)%nat → accepted (post env j) = false) envs →
    filelog (cycles envs remote P w) = filelog w
    ∧ db.GetFileRecord (filelog (cycles envs remote P w)) P = ("", 0, "", 0).
Proof.
  intros envs remote P w Hnone Hall.
  assert (E : filelog (cycles envs remote P w) = filelog w).
  { revert w Hnone. induction Hall as [|env envs Hrej _ IH]; intros w Hnone; [done|].
    cbn [cycles]. pose proof (cycle_without_record env remote P w Hnone Hrej) as E1.
    rewrite IH by (by rewrite E1). exact E1. }
  split; [exact E|]. rewrite E. unfold db.GetFileRecord. by rewrite Hnone.
Qed.

Lemma X9_server_down_witness :
  db.GetFileRecord
    (filelog (cycles [sample.server 503 None [sample.quiet; sample.quiet];
                      sample.server 503 None [sample.quiet; sample.quiet]]
                sample.R sample.a_pdf sample.fresh)) sample.a_pdf
  = ("", 0, "", 0).
Proof.
  refine (proj2 (X9_undelivered_path_collects_no_errors
            [sample.server 503 None [sample.quiet; sample.quiet];
             sample.server 503 None [sample.quiet; sample.quiet]]
            sample.R sample.a_pdf sample.fresh _ _)).
  - vm_compute. reflexivity.
  - repeat constructor.
Defined.

(** X10. The lock-out is permanent: once the record of a path shows
    more than ten errors and the file is on disk, any number of further
    processing cycles only query the File-Log; they make no POST, move
    no file and change no record. *)
Theorem X10_lockout_is_permanent :
  ∀ (envs : list Env) remote (P : string) w (info : FileInfo),
    files w !! P = Some info →
    10 < (db.GetFileRecord (filelog w) P).2 →
    filelog (cycles envs remote P w) = filelog w
    ∧ files (cycles envs remote P w) = files w
    ∧ trace (cycles envs remote P w) = trace w ++ replicate (length envs) (EQuery P).
Proof.
  intros envs remote P. induction envs as [|env envs IH]; intros w info Hf Hec.
  - cbn. by rewrite app_nil_r.
  - cbn [cycles].
    assert (E : handleUpload env remote P w = log (EQuery P) w).
    { unfold handleUpload. rewrite Hf.
      destruct (db.GetFileRecord (filelog w) P) as [[[st m] h] ec]. cbn in Hec.
      by replace (10 <? ec) with true by (symmetry; apply Z.ltb_lt; lia). }
    rewrite E.
    destruct (IH (log (EQuery P) w) info Hf Hec) as (H1 & H2 & H3).
    rewrite H1, H2, H3. cbn. by rewrite <- app_assoc.
Qed.

Lemma X10_locked_out_witness :
  trace (cycles [sample.server 200 None [sample.quiet; sample.quiet];
                 sample.server 200 None [sample.quiet; sample.quiet]]
           sample.R sample.a_pdf
           (set_filelog (sample.delivered_then_failed 11) sample.fresh))
  = [EQuery "/watch/a.pdf"; EQuery "/watch/a.pdf"].
Proof.
  refine (proj2 (proj2 (X10_lockout_is_permanent
            [sample.server 200 None [sample.quiet; sample.quiet];
             sample.server 200 None [sample.quiet; sample.quiet]]
            sample.R sample.a_pdf
            (set_filelog (sample.delivered_then_failed 11) sample.fresh)
            sample.on_disk _ _))).
  - vm_compute. reflexivity.
  - vm_compute. reflexivity.
Defined.

(** X11. Self-healing after a failed move: when the success callback
    has recorded the upload but the file is still at its path with the
    recorded mod-time (the rename was refused), the next processing
    cycle makes no POST and writes no record; it only retries the
    Done-Move. *)
Theorem X11_failed_move_is_retried_without_upload :
  ∀ env env' remote (P h : string) (m : Z) w (info : FileInfo),
    files (onSuccess env P h m w) !! P = Some info →
    fi_mod info = m →
    handleUpload env' remote P (onSuccess env P h m w)
    = moveToDone (mover env') P (log (EQuery P) (onSuccess env P h m w))
    ∧ posts (trace (handleUpload env' remote P (onSuccess env P h m w)))
      = posts (trace (onSuccess env P h m w))
    ∧ filelog (handleUpload env' remote P (onSuccess env P h m w))
      = filelog (onSuccess env P h m w).
Proof.
  intros env env' remote P h m w info Hf Hm.
  destruct (onSuccess_shape env P h m w) as (Hrec & _).
  assert (E : handleUpload env' remote P (onSuccess env P h m w)
              = moveToDone (mover env') P (log (EQuery P) (onSuccess env P h m w))).
  { unfold handleUpload. rewrite Hf, Hrec, Hm, Z.eqb_refl. reflexivity. }
  rewrite E. split; [done|]. split.
  - rewrite moved_posts. cbn [trace log]. rewrite posts_app. cbn. lia.
  - by destruct (moveToDone_shape (mover env') P
                   (log (EQuery P) (onSuccess env P h m w))).
Qed.

Lemma X11_denied_then_allowed_witness :
  let env := {| ticks := []; read_result := Digest sample.local_hash;
                post := λ _, sample.reply 200 None; cancel_wait := λ _, false;
                clock := 1700000001; mover := sample.os_denies |} in
  let w1 := onSuccess env sample.a_pdf sample.local_hash
              (fi_mod sample.on_disk) sample.fresh in
  files w1 !! sample.a_pdf = Some sample.on_disk
  ∧ files (handleUpload (sample.server 200 None []) sample.R sample.a_pdf w1)
    = {[ "/watch/.done/a.pdf" := sample.on_disk ]}
  ∧ posts (trace (handleUpload (sample.server 200 None []) sample.R sample.a_pdf w1))
    = 0%nat.
Proof.
  intros env w1.
  destruct (X11_failed_move_is_retried_without_upload env
              (sample.server 200 None []) sample.R sample.a_pdf sample.local_hash
              (fi_mod sample.on_disk) sample.fresh sample.on_disk
              ltac:(vm_compute; reflexivity) eq_refl) as (E & Hp & _).
  split; [vm_compute; reflexivity|].
  split; [unfold w1; rewrite E; vm_compute; reflexivity|].
  unfold w1. rewrite Hp. vm_compute; reflexivity.
Defined.

End WorkerCycle.

(** ** Destinations of the Done-Mover *)

Section Destinations.
Import core.
Implicit Types (w : World) (me : MoveEnv) (a b p : string).

Lemma string_length_app a b :
  String.length (a +:+ b) = (String.length a + String.length b)%nat.
Proof. induction a as [|c a IH]; [done|]. simpl. by f_equal. Qed.

Lemma Join_length a b :
  (String.length a + String.length b ≤ String.length (Join a b))%nat.
Proof.
  unfold Join. destruct (decide (a = "/")) as [->|_];
    rewrite ?string_length_app; cbn; lia.
Qed.

Lemma Join_length_eq a b1 b2 :
  String.length b1 ≠ String.length b2 → Join a b1 ≠ Join a b2.
Proof.
  intros Hlen E. apply Hlen.
  apply (f_equal String.length) in E. revert E. unfold Join.
  destruct (decide (a = "/")); rewrite ?string_length_app; cbn; lia.
Qed.

Lemma split_last_length p d b :
  split_last p = Some (d, b) →
  String.length p = (String.length d + 1 + String.length b)%nat.
Proof.
  revert d b. induction p as [|c p IH]; intros d b; cbn; [done|].
  destruct (split_last p) as [[d' b']|] eqn:E.
  - intros [= <- <-]. cbn. rewrite (IH d' b') by done. lia.
  - destruct (is_sep c); [|done]. intros [= <- <-]. cbn. lia.
Qed.

Lemma Dir_Base_length p :
  (String.length p ≤ String.length (Dir p) + String.length (Base p) + 1)%nat.
Proof.
  unfold Dir, Base. destruct (split_last p) as [[d b]|] eqn:E.
  - rewrite (split_last_length _ _ _ E).
    destruct (decide (d = "")) as [->|_]; destruct (decide (b = "")) as [->|_];
      cbn; lia.
  - destruct (decide (p = "")) as [->|_]; cbn; lia.
Qed.

(** Both candidate destinations are longer than the source path, and the
    stamped one differs from the plain one. *)
Lemma destinations_differ p (stamp : string) :
  let plain := Join (Join (Dir p) ".done") (Base p) in
  let stamped := Join (Join (Dir p) ".done") (stamp +:+ "_" +:+ Base p) in
  plain ≠ p ∧ stamped ≠ p ∧ stamped ≠ plain.
Proof.
  intros plain stamped.
  pose proof (Dir_Base_length p) as Hp.
  pose proof (Join_length (Dir p) ".done") as Hd. cbn in Hd.
  pose proof (Join_length (Join (Dir p) ".done") (Base p)) as H1.
  pose proof (Join_length (Join (Dir p) ".done") (stamp +:+ "_" +:+ Base p)) as H2.
  rewrite !string_length_app in H2. cbn in H2.
  split; [|split].
  - intros E. apply (f_equal String.length) in E. fold plain in H1. lia.
  - intros E. apply (f_equal String.length) in E. fold stamped in H2. lia.
  - apply Join_length_eq. rewrite !string_length_app. cbn. lia.
Qed.

(** X12. The Done-Move never overwrites a file that already sits in
    [.done] under the moved file's base name: that file is the same
    after the move, whether the rename succeeds or not. *)
Theorem X12_done_file_is_not_overwritten :
  ∀ me (P : string) w (x : FileInfo),
    files w !! Join (Join (Dir P) ".done") (Base P) = Some x →
    files (moveToDone me P w) !! Join (Join (Dir P) ".done") (Base P) = Some x.
Proof.
  intros me P w x Hx. unfold moveToDone.
  destruct (MkdirAll_frame me (Join (Dir P) ".done") w) as (_ & Hf & _).
  set (w1 := MkdirAll me (Join (Dir P) ".done") w) in *.
  assert (He : exists_on_disk w1 (Join (Join (Dir P) ".done") (Base P)) = true).
  { unfold exists_on_disk. rewrite Hf, Hx. by rewrite bool_decide_eq_true_2. }
  rewrite He.
  destruct (destinations_differ P (pretty (unix_now me))) as (H1 & _ & H3).
  unfold Rename. rewrite Hf.
  destruct (files w !! P) as [fi|]; [|cbn; by rewrite Hf].
  destruct (_ && _); [|cbn; by rewrite Hf].
  cbn. rewrite lookup_insert_ne by done. by rewrite lookup_delete_ne.
Qed.

(** The same document is scanned again while its first copy is in [.done]. *)
Lemma X12_collision_witness :
  let w := set_dirs {[ "/watch"; "/watch/.done" ]}
             (set_files {[ sample.a_pdf := sample.on_disk;
                           "/watch/.done/a.pdf" := {| fi_size := 7; fi_mod := 1 |} ]}
                sample.fresh) in
  files (moveToDone sample.os_ok sample.a_pdf w) !! "/watch/.done/a.pdf"
  = Some {| fi_size := 7; fi_mod := 1 |}
  ∧ files (moveToDone sample.os_ok sample.a_pdf w) !! "/watch/.done/1700000000_a.pdf"
    = Some sample.on_disk.
Proof.
  intros w. split.
  - exact (X12_done_file_is_not_overwritten sample.os_ok sample.a_pdf w
             {| fi_size := 7; fi_mod := 1 |} ltac:(vm_compute; reflexivity)).
  - vm_compute. reflexivity.
Defined.

Lemma Rename_files me src dst w w' :
  Rename me src dst w = Some w' →
  ∃ fi, files w !! src = Some fi
        ∧ files w' = <[dst := fi]> (delete src (files w)).
Proof.
  unfold Rename. destruct (files w !! src) as [fi|]; [|done].
  destruct (_ && _); [|done]. intros [= <-]. by exists fi.
Qed.

(** X13. The Done-Move renames the file to [.done/<base>] when nothing
    exists there, and otherwise to [.done/<unix seconds>_<base>].  When
    the rename succeeds the file is no longer at its path and is at the
    destination with the same [FileInfo], in place of whatever file may
    have been there (which can only happen at the stamped name); every
    file other than the source and the destination is where and what it
    was. *)
Theorem X13_successful_move :
  ∀ me (P : string) w,
    ∃ dest ok,
      trace (moveToDone me P w)
      = trace w ++ [EMkdirAll (Join (Dir P) ".done"); ERename P dest ok]
      ∧ ((dest = Join (Join (Dir P) ".done") (Base P)
          ∧ files w !! dest = None)
         ∨ (dest = Join (Join (Dir P) ".done")
                     (pretty (unix_now me) +:+ "_" +:+ Base P)
            ∧ exists_on_disk (MkdirAll me (Join (Dir P) ".done") w)
                (Join (Join (Dir P) ".done") (Base P)) = true))
      ∧ dest ≠ P
      ∧ (ok = true →
         ∃ fi, files w !! P = Some fi
               ∧ files (moveToDone me P w) !! P = None
               ∧ files (moveToDone me P w) !! dest = Some fi
               ∧ files (moveToDone me P w) = <[dest := fi]> (delete P (files w))
               ∧ ∀ q, q ≠ P → q ≠ dest →
                      files (moveToDone me P w) !! q = files w !! q).
Proof.
  intros me P w. unfold moveToDone.
  destruct (MkdirAll_frame me (Join (Dir P) ".done") w) as (_ & Hf & Ht).
  set (w1 := MkdirAll me (Join (Dir P) ".done") w) in *.
  destruct (destinations_differ P (pretty (unix_now me))) as (H1 & H2 & _).
  set (dest := if exists_on_disk w1 _ then _ else _).
  assert (Hdest : ((dest = Join (Join (Dir P) ".done") (Base P)
                    ∧ files w !! dest = None)
                   ∨ (dest = Join (Join (Dir P) ".done")
                               (pretty (unix_now me) +:+ "_" +:+ Base P)
                      ∧ exists_on_disk w1
                          (Join (Join (Dir P) ".done") (Base P)) = true))
                  ∧ dest ≠ P).
  { unfold dest.
    destruct (exists_on_disk w1 (Join (Join (Dir P) ".done") (Base P))) eqn:Ex.
    - split; [right; done|done].
    - split; [left; split; [done|]|done].
      unfold exists_on_disk in Ex. apply orb_false_elim in Ex as [Ex _].
      apply bool_decide_eq_false in Ex. rewrite Hf in Ex.
      destruct (files w !! Join (Join (Dir P) ".done") (Base P)); [|done].
      exfalso. apply Ex. eauto. }
  destruct Hdest as [Hdest Hne].
  destruct (Rename me P dest w1) as [w2|] eqn:E.
  - exists dest, true.
    destruct (Rename_frame _ _ _ _ _ E) as (_ & Ht2 & _).
    destruct (Rename_files _ _ _ _ _ E) as (fi & Hsrc & Hfiles).
    split; [cbn; rewrite Ht2, Ht; by rewrite <- app_assoc|].
    split; [done|]. split; [done|]. intros _. exists fi. rewrite <- Hf.
    split; [done|].
    cbn [files log]. rewrite Hfiles.
    split; [rewrite lookup_insert_ne by done; apply lookup_delete_eq|].
    split; [apply lookup_insert_eq|]. split; [done|].
    intros q Hq1 Hq2. rewrite lookup_insert_ne by done. by rewrite lookup_delete_ne.
  - exists dest, false.
    split; [cbn; rewrite Ht; by rewrite <- app_assoc|].
    split; [done|]. split; [done|]. discriminate.
Qed.

(** Two earlier copies sit in [.done], one under the plain and one under
    the stamped name: the move goes to the stamped name and replaces the
    file that was there; the plain one is kept. *)
Lemma X13_second_collision_witness :
  let w := set_dirs {[ "/watch"; "/watch/.done" ]}
             (set_files {[ sample.a_pdf := sample.on_disk;
                           "/watch/.done/a.pdf" := {| fi_size := 7; fi_mod := 1 |};
                           "/watch/.done/1700000000_a.pdf"
                             := {| fi_size := 8; fi_mod := 2 |} ]}
                sample.fresh) in
  files w !! "/watch/.done/1700000000_a.pdf" = Some {| fi_size := 8; fi_mod := 2 |}
  ∧ files (moveToDone sample.os_ok sample.a_pdf w)
    = {[ "/watch/.done/a.pdf" := {| fi_size := 7; fi_mod := 1 |};
         "/watch/.done/1700000000_a.pdf" := sample.on_disk ]}.
Proof.
  intros w. split; [vm_compute; reflexivity|].
  destruct (X13_successful_move sample.os_ok sample.a_pdf w)
    as (dest & ok & Ht & _ & _ & Hok).
  assert (Hd : dest = "/watch/.done/1700000000_a.pdf" ∧ ok = true).
  { vm_compute in Ht. injection Ht as -> ->. done. }
  destruct Hd as [-> ->].
  destruct (Hok eq_refl) as (fi & Hsrc & _ & _ & Hall & _).
  rewrite Hall.
  assert (Hfi : fi = sample.on_disk).
  { vm_compute in Hsrc. by injection Hsrc. }
  rewrite Hfi. vm_compute. reflexivity.
Defined.

End Destinations.

(** ** The orchestrator: bounds and control messages *)

Section OrchestratorMore.
Import config orchestrator.
Implicit Types (o : Orch) (remote : RemoteConfig).

(** X14. In every reachable state of the orchestrator no path is both
    pending and active: a path that has an entry in [pendingStates] has
    none in [activeProcessing]. *)
Theorem X14_pending_and_active_are_disjoint :
  ∀ remote o (P : string) (st : fileState),
    reachable remote o →
    pendingStates o !! P = Some st →
    activeProcessing o !! P = None.
Proof.
  intros remote o P st Hreach Hp.
  destruct (reachable_inv _ _ Hreach) as (Hpend & _).
  by destruct (Hpend _ _ Hp).
Qed.

Lemma X14_settling_witness :
  ∃ o, run sample.R sample.settling init = Some o
       ∧ activeProcessing o !! sample.a_pdf = None.
Proof.
  destruct (run sample.R sample.settling init) as [o|] eqn:Hrun;
    [|vm_compute in Hrun; discriminate Hrun].
  exists o. split; [reflexivity|].
  apply (X14_pending_and_active_are_disjoint sample.R o sample.a_pdf
           {| lastSize := 10; lastMod := 1700000000000000077; timer := 0 |}).
  - by exists sample.settling.
  - assert (H : (λ o, pendingStates o !! sample.a_pdf)
                  <$> run sample.R sample.settling init
                = Some (Some {| lastSize := 10; lastMod := 1700000000000000077;
                                timer := 0 |})) by (vm_compute; reflexivity).
    rewrite Hrun in H. by injection H.
Defined.

(** Counting the workers that hold a semaphore slot. *)
Lemma slots_fresh (ws : gmap nat (string * phase)) k v :
  ws !! k = None →
  length (filter (λ kv : nat * (string * phase), kv.2.2 = Processing)
            (map_to_list (<[k := v]> ws)))
  = ((if decide (v.2 = Processing) then 1 else 0)
     + length (filter (λ kv : nat * (string * phase), kv.2.2 = Processing)
                 (map_to_list ws)))%nat.
Proof.
  intros Hk. rewrite (map_to_list_insert ws k v Hk), filter_cons. cbn.
  by destruct (decide (v.2 = Processing)).
Qed.

Lemma slots_present (ws : gmap nat (string * phase)) k v :
  ws !! k = Some v →
  length (filter (λ kv : nat * (string * phase), kv.2.2 = Processing)
            (map_to_list ws))
  = ((if decide (v.2 = Processing) then 1 else 0)
     + length (filter (λ kv : nat * (string * phase), kv.2.2 = Processing)
                 (map_to_list (delete k ws))))%nat.
Proof.
  intros Hk. rewrite <- (map_to_list_delete ws k v Hk), filter_cons. cbn.
  by destruct (decide (v.2 = Processing)).
Qed.

Lemma slots_replace (ws : gmap nat (string * phase)) k v v' :
  ws !! k = Some v →
  length (filter (λ kv : nat * (string * phase), kv.2.2 = Processing)
            (map_to_list (<[k := v']> ws)))
  = ((if decide (v'.2 = Processing) then 1 else 0)
     + length (filter (λ kv : nat * (string * phase), kv.2.2 = Processing)
                 (map_to_list (delete k ws))))%nat.
Proof.
  intros Hk. rewrite <- insert_delete_eq.
  apply slots_fresh, lookup_delete_eq.
Qed.

Lemma limit_pos remote : 0 < limit_of remote.
Proof. unfold limit_of. destruct (ConcurrencyLimit remote <=? 0) eqn:E; lia. Qed.

Lemma on_event_bounds remote settling e o :
  orch_bounds remote o → orch_bounds remote (on_event settling e o).
Proof.
  intros H. unfold on_event.
  destruct (default false _); [done|].
  destruct (pendingStates o !! path e) as [state|]; [|done].
  by destruct (_ || _).
Qed.

Lemma on_done_bounds remote msg o :
  orch_bounds remote o → orch_bounds remote (on_done msg o).
Proof.
  intros (Hs & He & Hd & Hw). unfold on_done.
  destruct (HasPrefix msg "START:").
  - split; [|split; [done|split; [done|]]].
    + unfold slots_taken in *. cbn [workers set_workers set_active set_pending].
      rewrite slots_fresh; [done|].
      destruct (workers o !! next_worker o) as [x|] eqn:E; [|done].
      apply Hw in E. lia.
    + cbn. intros k x. destruct (decide (k = next_worker o)) as [->|Hne]; [lia|].
      rewrite lookup_insert_ne by done. intros H%Hw. lia.
  - by destruct (HasPrefix msg "FINISH:").
Qed.

Lemma step_bounds remote l o o' :
  orch_bounds remote o → step remote l o = Some o' → orch_bounds remote o'.
Proof.
  intros Hb Hstep. destruct l; cbn in Hstep.
  - case_bool_decide as Hroom; [|done]. injection Hstep as <-.
    destruct Hb as (Hs & He & Hd & Hw).
    split; [done|]. split; [|done]. cbn. rewrite length_app. cbn. lia.
  - destruct (halted o); [done|]. destruct (eventChan o) as [|e' q] eqn:Eq; [done|].
    injection Hstep as <-. apply on_event_bounds.
    destruct Hb as (Hs & He & Hd & Hw).
    split; [done|]. split; [|done]. cbn. rewrite Eq in He. cbn in He. lia.
  - destruct (armed o !! id) as [[p deadline]|]; [|done].
    destruct (deadline <=? now o); [|done]. by injection Hstep as <-.
  - destruct (outbox o !! i); [|done]. case_bool_decide as Hroom; [|done].
    injection Hstep as <-. destruct Hb as (Hs & He & Hd & Hw).
    split; [done|]. split; [done|]. split; [|done].
    cbn. rewrite length_app. cbn. lia.
  - destruct (halted o); [done|]. destruct (doneChan o) as [|msg q] eqn:Eq; [done|].
    injection Hstep as <-. apply on_done_bounds.
    destruct Hb as (Hs & He & Hd & Hw).
    split; [done|]. split; [done|]. split; [|done].
    cbn. rewrite Eq in Hd. cbn in Hd. lia.
  - destruct (workers o !! k) as [[p [|]]|] eqn:Ek; try done.
    destruct (Z.of_nat (slots_taken o) <? limit_of remote) eqn:Eroom; [|done].
    injection Hstep as <-. apply Z.ltb_lt in Eroom.
    destruct Hb as (Hs & He & Hd & Hw).
    split; [|split; [done|split; [done|]]].
    + unfold slots_taken in *. cbn [workers set_workers].
      rewrite (slots_replace _ _ _ _ Ek).
      rewrite (slots_present _ _ _ Ek) in Eroom. cbn [snd] in *.
      rewrite decide_True by done. rewrite decide_False in Eroom by done. lia.
    + cbn. intros k' x. destruct (decide (k' = k)) as [->|Hne].
      * intros _. by eapply Hw.
      * rewrite lookup_insert_ne by done. apply Hw.
  - destruct (workers o !! k) as [[p [|]]|] eqn:Ek; try done.
    injection Hstep as <-. destruct Hb as (Hs & He & Hd & Hw).
    split; [|split; [done|split; [done|]]].
    + unfold slots_taken in *. cbn [workers set_workers set_outbox].
      rewrite (slots_present _ _ _ Ek) in Hs. cbn [snd] in Hs.
      rewrite decide_True in Hs by done. lia.
    + cbn. intros k' x [_ H]%lookup_delete_Some. by eapply Hw.
  - destruct (0 <=? d); [|done]. by injection Hstep as <-.
  - by injection Hstep as <-.
Qed.

Lemma run_bounds remote ls :
  ∀ o o', orch_bounds remote o → run remote ls o = Some o' → orch_bounds remote o'.
Proof.
  induction ls as [|l ls IH]; intros o o' Hb Hrun; cbn in Hrun.
  - by injection Hrun as <-.
  - destruct (step remote l o) as [o1|] eqn:E; [|done].
    eapply IH; [|exact Hrun]. by eapply step_bounds.
Qed.

Lemma init_bounds remote : orch_bounds remote init.
Proof.
  pose proof (limit_pos remote).
  split; [|split; [|split]]; cbn; try lia.
  - unfold slots_taken. cbn. rewrite map_to_list_empty. cbn. lia.
  - intros k x. by rewrite lookup_empty.
Qed.

(** X15. Bounded concurrency: in every reachable state the number of
    workers that hold a semaphore slot (those between acquire and
    release) is at most the concurrency limit, which is the configured
    value, or 5 when that is zero or negative. *)
Theorem X15_bounded_concurrency :
  ∀ remote o,
    reachable remote o →
    Z.of_nat (slots_taken o) ≤ limit_of remote
    ∧ limit_of remote
      = (if ConcurrencyLimit remote <=? 0 then 5 else ConcurrencyLimit remote).
Proof.
  intros remote o [ls Hrun].
  destruct (run_bounds remote ls init o (init_bounds remote) Hrun) as (Hs & _).
  done.
Qed.

Lemma X15_race_witness :
  ∃ o, run sample.R sample.race init = Some o
       ∧ Z.of_nat (slots_taken o) ≤ 2.
Proof.
  destruct (run sample.R sample.race init) as [o|] eqn:Hrun;
    [|vm_compute in Hrun; discriminate Hrun].
  exists o. split; [reflexivity|].
  exact (proj1 (X15_bounded_concurrency sample.R o
                  (ex_intro _ sample.race Hrun))).
Defined.

(** X16. Bounded queues: in every reachable state each of the two
    channels of the orchestrator holds at most 100 messages. *)
Theorem X16_bounded_channels :
  ∀ remote o,
    reachable remote o →
    (length (eventChan o) ≤ 100)%nat ∧ (length (doneChan o) ≤ 100)%nat.
Proof.
  intros remote o [ls Hrun].
  destruct (run_bounds remote ls init o (init_bounds remote) Hrun)
    as (_ & He & Hd & _).
  done.
Qed.

Lemma X16_race_witness :
  ∃ o, run sample.R sample.race init = Some o
       ∧ (length (eventChan o) ≤ 100)%nat ∧ (length (doneChan o) ≤ 100)%nat.
Proof.
  destruct (run sample.R sample.race init) as [o|] eqn:Hrun;
    [|vm_compute in Hrun; discriminate Hrun].
  exists o. split; [reflexivity|].
  exact (X16_bounded_channels sample.R o (ex_intro _ sample.race Hrun)).
Defined.

(** X17. The control messages decode to the path they were built
    from, whatever that path is (even one that itself begins with
    [START:] or [FINISH:]): ["START:" + p] removes [p] from the pending
    map, marks [p] active and dispatches one worker for [p];
    ["FINISH:" + p] removes [p] from the active map and does nothing
    else. *)
Theorem X17_control_messages_round_trip :
  ∀ (p : string) o,
    TrimPrefix ("START:" +:+ p) "START:" = p
    ∧ TrimPrefix ("FINISH:" +:+ p) "FINISH:" = p
    ∧ on_done ("START:" +:+ p) o
      = set_workers (<[next_worker o := (p, Queued)]> (workers o))
          (S (next_worker o))
          (set_active (<[p := true]> (activeProcessing o))
             (set_pending (delete p (pendingStates o)) o))
    ∧ on_done ("FINISH:" +:+ p) o
      = set_active (delete p (activeProcessing o)) o.
Proof. intros p o. repeat split. Qed.

Lemma halted_step remote l o o' :
  halted o = true → step remote l o = Some o' →
  halted o' = true
  ∧ pendingStates o' = pendingStates o
  ∧ activeProcessing o' = activeProcessing o
  ∧ next_worker o' = next_worker o
  ∧ next_timer o' = next_timer o.
Proof.
  intros Hh Hstep. destruct l; cbn in Hstep; rewrite ?Hh in Hstep; try done.
  - case_bool_decide; [|done]. by injection Hstep as <-.
  - destruct (armed o !! id) as [[p deadline]|]; [|done].
    destruct (deadline <=? now o); [|done]. by injection Hstep as <-.
  - destruct (outbox o !! i); [|done]. case_bool_decide; [|done].
    by injection Hstep as <-.
  - destruct (workers o !! k) as [[p [|]]|]; try done.
    destruct (_ <? _); [|done]. by injection Hstep as <-.
  - destruct (workers o !! k) as [[p [|]]|]; try done.
    by injection Hstep as <-.
  - destruct (0 <=? d); [|done]. by injection Hstep as <-.
  - by injection Hstep as <-.
Qed.

(** X18. After the orchestrator has taken the shutdown signal, whatever
    happens next (sources still emitting, timers still expiring,
    dispatched workers acquiring slots and returning), it takes no more
    input: no path changes between idle, pending and active, no timer is
    armed and no further worker is dispatched. *)
Theorem X18_nothing_is_dispatched_after_shutdown :
  ∀ remote (ls : list label) o o',
    halted o = true →
    run remote ls o = Some o' →
    halted o' = true
    ∧ pendingStates o' = pendingStates o
    ∧ activeProcessing o' = activeProcessing o
    ∧ next_worker o' = next_worker o
    ∧ next_timer o' = next_timer o.
Proof.
  intros remote ls. induction ls as [|l ls IH]; intros o o' Hh Hrun; cbn in Hrun.
  - by injection Hrun as <-.
  - destruct (step remote l o) as [o1|] eqn:E; [|done].
    destruct (halted_step _ _ _ _ Hh E) as (H1 & H2 & H3 & H4 & H5).
    destruct (IH o1 o' H1 Hrun) as (G1 & G2 & G3 & G4 & G5).
    repeat split; congruence.
Qed.

Lemma X18_shutdown_while_settling_witness :
  ∃ o o',
    run sample.R (sample.settling ++ [Shutdown]) init = Some o
    ∧ run sample.R [Advance (2 * Second); Fire 0; Deliver 0;
                    Emit (Event sample.a_pdf 20 5)] o = Some o'
    ∧ next_worker o' = 0%nat
    ∧ pendingStates o' = pendingStates o.
Proof.
  destruct (run sample.R (sample.settling ++ [Shutdown]) init) as [o|] eqn:Hrun;
    [|vm_compute in Hrun; discriminate Hrun].
  assert (Ho : Some o = Some (set_halted true
                 (on_event (settling_of sample.R)
                    (Event sample.a_pdf 10 1700000000000000077) init)))
    by (rewrite <- Hrun; vm_compute; reflexivity).
  injection Ho as Ho.
  destruct (run sample.R [Advance (2 * Second); Fire 0; Deliver 0;
                          Emit (Event sample.a_pdf 20 5)] o) as [o'|] eqn:Hrun';
    [|rewrite Ho in Hrun'; vm_compute in Hrun'; discriminate Hrun'].
  exists o, o'. split; [reflexivity|]. split; [exact Hrun'|].
  destruct (X18_nothing_is_dispatched_after_shutdown sample.R _ o o'
              ltac:(rewrite Ho; reflexivity) Hrun') as (_ & Hp & _ & Hw & _).
  split; [|exact Hp]. rewrite Hw, Ho. reflexivity.
Defined.

End OrchestratorMore.

(** ** The earlier uploader: remaining outcomes *)

Section EarlierUploader.
Import config api.
Implicit Types (w : World) (env : Env) (remote : RemoteConfig).

(** X19. In the earlier [cmd.uploadFile], when the first accepted
    answer carries a [sha256] equal to the local hash the record is
    upserted as VERIFIED with error_count 0 and the move is attempted.
    When its body does not decode into the map (it is not a JSON
    document, or it is a JSON value other than an object or [null]),
    the move is attempted although no File-Log statement at all is
    issued, so the file is delivered without any record.  A [null] body
    decodes without error: the record is upserted as UPLOADED and the
    move is attempted. *)
Theorem X19_earlier_uploader_match_and_opaque_body :
  ∀ env (stamp : string) remote (P h : string) (m : Z) w (k : nat),
    (k < 3)%nat →
    (∀ j : nat, (j < k)%nat → accepted (post env j) = false) →
    accepted (post env k) = true →
    let res := legacy.attempts env stamp remote P h m 3 0 w in
    let w1 := extend (failed_rounds remote P k ++ [EPost (upload_url remote) P]) w in
    (∀ result,
       legacy.Unmarshal (Body (post env k)) = Some result →
       legacy.string_member result "sha256" = Some h →
       res = legacy.move (mover env) stamp P
               (legacy.exec P
                  (db.UpdateFileStatus (clock env) P db.StatusVerified h m 0) w1)
       ∧ db.GetFileRecord (filelog res) P = (db.StatusVerified, m, h, 0))
    ∧ (decodes_into_map (Body (post env k)) = false →
       res = legacy.move (mover env) stamp P w1
       ∧ filelog res = filelog w)
    ∧ (Body (post env k) = Some JNull →
       res = legacy.move (mover env) stamp P
               (legacy.exec P
                  (db.UpdateFileStatus (clock env) P db.StatusUploaded h m 0) w1)
       ∧ db.GetFileRecord (filelog res) P = (db.StatusUploaded, m, h, 0)).
Proof.
  intros env stamp remote P h m w k Hk Hbefore Ha res w1.
  assert (E : res = legacy.attempts env stamp remote P h m (S (2 - k)) k
                      (extend (failed_rounds remote P k) w)).
  { unfold res. replace 3%nat with (k + S (2 - k))%nat by lia.
    by rewrite legacy_attempts_skip. }
  cbn [legacy.attempts] in E. rewrite Ha in E.
  rewrite log_extend, extend_extend in E. fold w1 in E.
  split; [|split].
  - intros result Hbody Hmem. rewrite Hbody, Hmem in E.
    rewrite decide_True in E by done. split; [exact E|].
    rewrite E, legacy_move_filelog. cbn. apply get_after_update.
  - intros Hbody.
    assert (Hnone : legacy.Unmarshal (Body (post env k)) = None).
    { destruct (Body (post env k)) as [[| | | | |]|]; done. }
    rewrite Hnone in E. split; [exact E|].
    by rewrite E, legacy_move_filelog.
  - intros Hbody.
    assert (Hnull : legacy.Unmarshal (Body (post env k)) = Some ∅)
      by (by rewrite Hbody).
    assert (Hmem : legacy.string_member ∅ "sha256" = None)
      by (unfold legacy.string_member; by rewrite lookup_empty).
    rewrite Hnull, Hmem in E. split; [exact E|].
    rewrite E, legacy_move_filelog. cbn. apply get_after_update.
Qed.

(** The server answers 200 with a page that is not JSON. *)
Lemma X19_html_answer_witness :
  let env := sample.server 200 None [] in
  let w := set_dirs {[ "/watch"; "/watch/.done" ]} sample.fresh in
  let res := legacy.attempts env "20231114221320" sample.R sample.a_pdf
               sample.local_hash 5 3 0 w in
  filelog res = filelog w
  ∧ files res = {[ "/watch/.done/a.pdf" := sample.on_disk ]}.
Proof.
  intros env w res.
  destruct (X19_earlier_uploader_match_and_opaque_body env "20231114221320"
              sample.R sample.a_pdf sample.local_hash 5 w 0%nat
              ltac:(lia) ltac:(intros j Hj; lia) eq_refl) as (_ & Hopaque & _).
  destruct (Hopaque eq_refl) as [E Hl].
  split; [exact Hl|]. unfold res. rewrite E. vm_compute. reflexivity.
Defined.

(** X20. In the earlier [cmd.uploadFile] the back-off cannot be
    interrupted: when the server accepts none of the three POSTs, then,
    shutdown or not, all three are made, each followed by a two-second
    sleep, [incrementError] is issued and no file is moved. *)
Theorem X20_earlier_uploader_always_exhausts :
  ∀ env (stamp : string) remote (P h : string) (m : Z) w,
    (∀ j : nat, (j < 3)%nat → accepted (post env j) = false) →
    legacy.attempts env stamp remote P h m 3 0 w
    = legacy.exec P (db.IncrementError (clock env) P)
        (extend (failed_rounds remote P 3) w)
    ∧ trace (legacy.attempts env stamp remote P h m 3 0 w)
      = trace w ++ failed_rounds remote P 3 ++ [EExec P]
    ∧ files (legacy.attempts env stamp remote P h m 3 0 w) = files w.
Proof.
  intros env stamp remote P h m w Hrej.
  assert (E : legacy.attempts env stamp remote P h m 3 0 w
              = legacy.exec P (db.IncrementError (clock env) P)
                  (extend (failed_rounds remote P 3) w)).
  { change 3%nat with (3 + 0)%nat at 1. by rewrite legacy_attempts_skip. }
  rewrite E. split; [done|]. split; [|done].
  cbn [legacy.exec trace log set_filelog extend]. by rewrite <- app_assoc.
Qed.

Lemma X20_shutdown_ignored_witness :
  let env := sample.shutdown_after 0 (sample.server 503 None []) in
  posts (trace (legacy.attempts env "20231114221320" sample.R sample.a_pdf
                  sample.local_hash 5 3 0 sample.fresh)) = 3%nat.
Proof.
  intros env.
  destruct (X20_earlier_uploader_always_exhausts env "20231114221320" sample.R
              sample.a_pdf sample.local_hash 5 sample.fresh
              ltac:(intros j Hj; reflexivity)) as (_ & Ht & _).
  rewrite Ht. vm_compute. reflexivity.
Defined.

End EarlierUploader.

(** ** The list of remotes *)

Section Remotes.
Import config remote_cmd.
Implicit Types (remotes : list RemoteConfig) (name s t : string).

Lemma mem_slash c : mem_char c "/" = true ↔ c = "/"%char.
Proof.
  cbn. rewrite orb_false_r. apply Ascii.eqb_eq.
Qed.

Lemma TrimRight_split s : ∃ k, s = TrimRight s "/" +:+ slashes k.
Proof.
  induction s as [|c r [k IH]]; [by exists 0%nat|].
  cbn [TrimRight]. destruct (TrimRight r "/") as [|d r'] eqn:E.
  - destruct (mem_char c "/") eqn:Ec.
    + apply mem_slash in Ec as ->. exists (S k).
      change (String "/" r = String "/" (slashes k)). f_equal. exact IH.
    + exists k. change (String c r = String c ("" +:+ slashes k)).
      f_equal. exact IH.
  - exists k. change (String c r = String c (String d r' +:+ slashes k)).
    f_equal. exact IH.
Qed.

Lemma TrimRight_no_trailing s t : TrimRight s "/" ≠ t +:+ "/".
Proof.
  revert t. induction s as [|c r IH]; intros t; cbn [TrimRight].
  - by destruct t.
  - destruct (TrimRight r "/") as [|d r'] eqn:E.
    + destruct (mem_char c "/") eqn:Ec; [by destruct t|].
      destruct t as [|c' t']; cbn.
      * intros [= ->]. by rewrite (proj2 (mem_slash "/"%char)) in Ec.
      * intros [= _ H]. by destruct t'.
    + destruct t as [|c' t']; cbn; [done|].
      intros [= _ H]. by apply (IH t').
Qed.

Lemma TrimRight_idem s : TrimRight (TrimRight s "/") "/" = TrimRight s "/".
Proof.
  induction s as [|c r IH]; [done|]. cbn [TrimRight].
  destruct (TrimRight r "/") as [|d r'] eqn:E.
  - destruct (mem_char c "/") eqn:Ec; [done|]. cbn [TrimRight]. by rewrite Ec.
  - cbn [TrimRight] in *. by rewrite IH.
Qed.

(** X21. [TrimRight(s, "/")] removes exactly the trailing slashes: the
    argument is the result followed by some number of slashes, the
    result does not end in a slash, and trimming again changes nothing. *)
Theorem X21_trim_trailing_slashes :
  ∀ s : string,
    (∃ k, s = TrimRight s "/" +:+ slashes k)
    ∧ (∀ t, TrimRight s "/" ≠ t +:+ "/")
    ∧ TrimRight (TrimRight s "/") "/" = TrimRight s "/".
Proof.
  intros s. split; [apply TrimRight_split|].
  split; [apply TrimRight_no_trailing|apply TrimRight_idem].
Qed.

Lemma name_taken_spec name remotes :
  name_taken name remotes = true ↔ name ∈ (Name <$> remotes).
Proof.
  induction remotes as [|r rest IH]; cbn.
  - split; [done|]. by intros ?%elem_of_nil.
  - rewrite elem_of_cons. destruct (decide (Name r = name)) as [<-|Hne].
    + split; auto.
    + rewrite IH. split; [auto|]. by intros [?|?].
Qed.

(** X22. When [remote add] stores a list, it is the previous list
    followed by one new remote whose name, path and key are the given
    non-empty name, the absolute path and the non-empty key and whose
    endpoint has no trailing slash; the name was not in use, so unique
    names stay unique; and unless [--force] was given the verification
    request had answered 200 without transport error. *)
Theorem X22_remote_add :
  ∀ (fl : AddFlags) (check : Response) (abs : option string) remotes remotes',
    NoDup (Name <$> remotes) →
    remoteAdd fl check abs remotes = Some remotes' →
    ∃ r, remotes' = remotes ++ [r]
         ∧ Name r = f_name fl ∧ f_name fl ≠ "" ∧ f_path fl ≠ ""
         ∧ Key r = f_key fl ∧ f_key fl ≠ ""
         ∧ abs = Some (Path r)
         ∧ (∀ t, Endpoint r ≠ t +:+ "/")
         ∧ (f_name fl ∉ (Name <$> remotes))
         ∧ NoDup (Name <$> remotes')
         ∧ (f_force fl = false →
            transport_err check = false ∧ StatusCode check = 200).
Proof.
  intros fl check abs remotes remotes' Hnd. unfold remoteAdd.
  destruct (bool_decide (f_name fl = "") || bool_decide (f_path fl = "")
            || bool_decide (f_key fl = "")) eqn:Ereq; [done|].
  apply orb_false_elim in Ereq as [Ereq Ek].
  apply orb_false_elim in Ereq as [En Ep].
  apply bool_decide_eq_false in En, Ep, Ek.
  destruct (negb (f_force fl) && _) eqn:Echeck; [done|].
  destruct abs as [absPath|]; [|done].
  destruct (name_taken (f_name fl) remotes) eqn:Et; [done|].
  assert (Hfree : f_name fl ∉ (Name <$> remotes)).
  { intros H%name_taken_spec. congruence. }
  intros [= <-]. eexists. split; [reflexivity|]. cbn.
  repeat split; try done.
  - apply TrimRight_no_trailing.
  - rewrite fmap_app. cbn. apply NoDup_app. split; [done|].
    split; [|apply NoDup_singleton].
    intros x Hx ->%list_elem_of_singleton. done.
  - destruct (f_force fl); [done|]. cbn in Echeck.
    apply orb_false_elim in Echeck as [Echeck _].
    apply orb_false_elim in Echeck as [Echeck _].
    by apply orb_false_elim in Echeck as [-> _].
  - destruct (f_force fl); [done|]. cbn in Echeck.
    apply orb_false_elim in Echeck as [_ E200].
    apply negb_false_iff in E200. by apply Z.eqb_eq.
Qed.

Lemma X22_add_witness :
  let fl := {| f_name := "scans"; f_path := "scans"; f_endpoint := "https://h/api//";
               f_key := "sk"; f_force := false; f_stability_threshold := 3;
               f_check_interval := Some (5 * Second);
               f_stability_timeout := Some (30 * Minute);
               f_concurrency_limit := 5; f_polling_interval := Some Minute;
               f_settling_delay := Some (5 * Second); f_no_fsnotify := false |} in
  ∃ r, remoteAdd fl (sample.reply 200 None) (Some "/watch/scans") [sample.R]
       = Some [sample.R; r]
       ∧ Name r = "scans" ∧ Endpoint r = "https://h/api".
Proof.
  intros fl.
  destruct (X22_remote_add fl (sample.reply 200 None) (Some "/watch/scans")
              [sample.R] [sample.R;
                {| Name := "scans"; Path := "/watch/scans";
                   Endpoint := "https://h/api"; Key := "sk";
                   StabilityThreshold := 3; CheckInterval := Some (5 * Second);
                   StabilityTimeout := Some (30 * Minute); ConcurrencyLimit := 5;
                   PollingInterval := Some Minute;
                   SettlingDelay := Some (5 * Second);
                   DisableFsnotify := false |}])
    as (r & Hr & Hn & _).
  - cbn. apply NoDup_singleton.
  - vm_compute. reflexivity.
  - exists r. injection Hr as <-. split; [vm_compute; reflexivity|]. done.
Defined.

Lemma remove_loop_spec name remotes :
  ∀ found upd,
    remove_loop name remotes found upd
    = (found || name_taken name remotes,
       upd ++ filter (λ r, Name r ≠ name) remotes).
Proof.
  induction remotes as [|r rest IH]; intros found upd; cbn [remove_loop name_taken].
  - by rewrite orb_false_r, app_nil_r.
  - rewrite filter_cons. destruct (decide (Name r = name)) as [E|E].
    + rewrite IH, orb_true_r. rewrite decide_False by auto. done.
    + rewrite IH. rewrite decide_True by done. by rewrite <- app_assoc.
Qed.

(** X23. [remote remove] stores a list exactly when a remote of that
    name exists; the stored list is the previous one without every
    remote of that name, the others in their previous order, so the
    name is gone from it. *)
Theorem X23_remote_remove :
  ∀ name remotes,
    (name ∉ (Name <$> remotes) → remoteRemove name remotes = None)
    ∧ (name ∈ (Name <$> remotes) →
       remoteRemove name remotes = Some (filter (λ r, Name r ≠ name) remotes)
       ∧ name ∉ (Name <$> filter (λ r, Name r ≠ name) remotes)).
Proof.
  intros name remotes. unfold remoteRemove.
  rewrite remove_loop_spec. cbn [orb app]. split.
  - intros Hn. destruct (name_taken name remotes) eqn:E; [|done].
    by apply name_taken_spec in E.
  - intros Hin. apply name_taken_spec in Hin as ->. split; [done|].
    intros (r & Hr & Hf)%list_elem_of_fmap.
    apply list_elem_of_filter in Hf as [Hne _]. congruence.
Qed.

Lemma X23_remove_witness :
  remoteRemove "R" [sample.R] = Some [].
Proof.
  destruct (proj2 (X23_remote_remove "R" [sample.R])) as [E _].
  - cbn. apply list_elem_of_here.
  - rewrite E. vm_compute. reflexivity.
Defined.

(** X24. Removing the remote that [remote add] has just stored gives
    back the list that was there before the addition. *)
Theorem X24_add_then_remove :
  ∀ (fl : AddFlags) (check : Response) (abs : option string) remotes remotes',
    remoteAdd fl check abs remotes = Some remotes' →
    remoteRemove (f_name fl) remotes' = Some remotes.
Proof.
  intros fl check abs remotes remotes'. unfold remoteAdd.
  destruct (_ || _ || _); [done|].
  destruct (negb (f_force fl) && _); [done|].
  destruct abs as [absPath|]; [|done].
  destruct (name_taken (f_name fl) remotes) eqn:Et; [done|].
  intros [= <-]. unfold remoteRemove. rewrite remove_loop_spec.
  cbn [orb app]. rewrite filter_app.
  assert (Htaken : name_taken (f_name fl)
            (remotes ++ [{| Name := f_name fl; Path := absPath;
                            Endpoint := TrimRight (f_endpoint fl) "/";
                            Key := f_key fl;
                            StabilityThreshold := f_stability_threshold fl;
                            CheckInterval := f_check_interval fl;
                            StabilityTimeout := f_stability_timeout fl;
                            ConcurrencyLimit := f_concurrency_limit fl;
                            PollingInterval := f_polling_interval fl;
                            SettlingDelay := f_settling_delay fl;
                            DisableFsnotify := f_no_fsnotify fl |}]) = true).
  { apply name_taken_spec. rewrite fmap_app. apply elem_of_app. right.
    cbn. apply list_elem_of_here. }
  rewrite Htaken. f_equal.
  rewrite filter_cons, decide_False by (cbn; auto).
  rewrite filter_nil, app_nil_r.
  assert (Hkeep : ∀ l : list RemoteConfig,
            name_taken (f_name fl) l = false →
            filter (λ r, Name r ≠ f_name fl) l = l).
  { induction l as [|r l IH]; [done|]. cbn [name_taken].
    destruct (decide (Name r = f_name fl)); [done|]. intros H.
    rewrite filter_cons, decide_True by done. by rewrite IH. }
  by apply Hkeep.
Qed.

Lemma X24_round_trip_witness :
  let fl := {| f_name := "scans"; f_path := "scans"; f_endpoint := "https://h/api//";
               f_key := "sk"; f_force := true; f_stability_threshold := 3;
               f_check_interval := None; f_stability_timeout := None;
               f_concurrency_limit := 5; f_polling_interval := None;
               f_settling_delay := None; f_no_fsnotify := false |} in
  ∃ remotes',
    remoteAdd fl (sample.reply 500 None) (Some "/watch/scans") [sample.R]
    = Some remotes'
    ∧ remoteRemove "scans" remotes' = Some [sample.R].
Proof.
  intros fl.
  destruct (remoteAdd fl (sample.reply 500 None) (Some "/watch/scans") [sample.R])
    as [remotes'|] eqn:E; [|vm_compute in E; discriminate E].
  exists remotes'. split; [reflexivity|].
  exact (X24_add_then_remove fl _ _ _ _ E).
Defined.

End Remotes.

(** ** The worker: files that keep changing and files left alone *)

Section WorkerProgress.
Import config api core.
Implicit Types (w : World) (env : Env) (remote : RemoteConfig).

Lemma changing_never_stable th ci mw P :
  0 < th →
  ∀ ts last w,
    ever_changing last ts →
    (stability_loop th ci mw P ts last 0 w).2 ≠ Stable.
Proof.
  intros Hth. induction ts as [|t ts IH]; intros last w Hch;
    cbn [stability_loop];
    replace (0 <? th) with true by (symmetry; apply Z.ltb_lt; lia); [done|].
  destruct (mw <? t_elapsed t); [done|]. destruct (t_cancel t); [done|].
  cbn [ever_changing] in Hch.
  destruct (t_disk t) as [fi|] eqn:Ed; cbn [observe log set_files files].
  - rewrite lookup_insert_eq. destruct Hch as [Hne Hch].
    replace (fi_size fi =? last) with false by (symmetry; by apply Z.eqb_neq).
    cbn [negb]. by apply IH.
  - by rewrite lookup_delete_eq.
Qed.

(** X25. A file whose size differs at every probe from the size seen
    just before is never uploaded: the cycle makes no POST and leaves
    the File-Log as it was. *)
Theorem X25_growing_file_is_not_uploaded :
  ∀ env remote (P : string) w,
    (∀ info, files w !! P = Some info →
             ever_changing (fi_size info) (ticks env)) →
    posts (trace (handleUpload env remote P w)) = posts (trace w)
    ∧ filelog (handleUpload env remote P w) = filelog w.
Proof.
  intros env remote P w Hch.
  destruct (handleUpload_cases env remote P w)
    as [E | [E | [E | (info & w1 & x & Hf & Hloop & [(Hx & E) | (-> & E)])]]];
    rewrite E; clear E.
  - done.
  - cbn [trace log]. rewrite posts_app. cbn. split; [lia|done].
  - rewrite moved_posts. cbn [trace log]. rewrite posts_app. cbn.
    split; [lia|]. by destruct (moveToDone_shape (mover env) P (log (EQuery P) w)).
  - pose proof (unstable_exit_frame (threshold_of remote)
      (duration_or (CheckInterval remote) (5 * Second))
      (duration_or (StabilityTimeout remote) (30 * Minute))
      P (ticks env) (fi_size info) w) as [Hl Hp].
    rewrite Hloop in Hl, Hp. done.
  - exfalso.
    apply (changing_never_stable (threshold_of remote)
             (duration_or (CheckInterval remote) (5 * Second))
             (duration_or (StabilityTimeout remote) (30 * Minute)) P
             (threshold_pos remote) (ticks env) (fi_size info)
             (log (EQuery P) w) (Hch info Hf)).
    by rewrite Hloop.
Qed.

Lemma X25_slow_writer_witness :
  let grow (n : Z) := {| t_elapsed := 0; t_cancel := false;
                         t_disk := Some {| fi_size := n; fi_mod := n |};
                         t_locked := false |} in
  posts (trace (handleUpload (sample.server 200 None [grow 11; grow 12; grow 13])
                  sample.R sample.a_pdf sample.fresh)) = 0%nat.
Proof.
  intros grow.
  refine (proj1 (X25_growing_file_is_not_uploaded
            (sample.server 200 None [grow 11; grow 12; grow 13])
            sample.R sample.a_pdf sample.fresh _)).
  intros info Hinfo. vm_compute in Hinfo. injection Hinfo as <-.
  cbn. repeat split; discriminate.
Defined.

Lemma untouched_run th ci mw P info :
  ∀ ts rest cnt w,
    0 ≤ cnt →
    cnt + Z.of_nat (length ts) = th →
    Forall (untouched_at info mw) ts →
    ∃ w',
      stability_loop th ci mw P (ts ++ rest) (fi_size info) cnt w = (w', Stable)
      ∧ filelog w' = filelog w
      ∧ (files w !! P = Some info → files w' !! P = Some info)
      ∧ trace w' = trace w ++ replicate (length ts) (ESleep ci).
Proof.
  induction ts as [|t ts IH]; intros rest cnt w Hc Hlen Hall.
  - cbn in Hlen. exists w. rewrite stability_loop_done by lia.
    cbn. by rewrite app_nil_r.
  - apply Forall_cons in Hall as [(He & Hx & Hd & Hl) Hall].
    cbn [length] in Hlen. cbn [app stability_loop].
    replace (cnt <? th) with true by (symmetry; apply Z.ltb_lt; lia).
    replace (mw <? t_elapsed t) with false by (symmetry; apply Z.ltb_ge; lia).
    rewrite Hx, Hd. cbn [observe log set_files files].
    rewrite lookup_insert_eq, Z.eqb_refl, Hl. cbn [negb].
    destruct (IH rest (cnt + 1)
                {| filelog := filelog w; files := <[P:=info]> (files w);
                   dirs := dirs w; trace := trace w ++ [ESleep ci] |}
                ltac:(lia) ltac:(lia) Hall) as (w' & E & Hfl & Hfi & Ht).
    exists w'. split; [exact E|]. split; [exact Hfl|].
    split; [intros _; apply Hfi; apply lookup_insert_eq|].
    rewrite Ht. cbn. by rewrite <- app_assoc.
Qed.

(** X26. The happy path.  The path has no delivered record for the
    file's mod-time and at most ten errors; the first [threshold] probes
    find the file untouched and unlocked before the deadline; the file
    can be read; the server accepts the first POST.  Then the cycle makes
    exactly one POST, after [threshold] sleeps, and the record of the
    path reads VERIFIED with the file's mod-time, its hash and
    error_count 0. *)
Theorem X26_untouched_file_is_delivered :
  ∀ env remote (P h : string) w (info : FileInfo) (ts rest : list Tick),
    files w !! P = Some info →
    (db.GetFileRecord (filelog w) P).2 ≤ 10 →
    ¬ (((db.GetFileRecord (filelog w) P).1.1.1 = db.StatusUploaded
        ∨ (db.GetFileRecord (filelog w) P).1.1.1 = db.StatusVerified)
       ∧ (db.GetFileRecord (filelog w) P).1.1.2 = fi_mod info) →
    ticks env = ts ++ rest →
    Z.of_nat (length ts) = threshold_of remote →
    Forall (untouched_at info
              (duration_or (StabilityTimeout remote) (30 * Minute))) ts →
    read_result env = Digest h →
    accepted (post env 0) = true →
    db.GetFileRecord (filelog (handleUpload env remote P w)) P
    = (db.StatusVerified, fi_mod info, h, 0)
    ∧ posts (trace (handleUpload env remote P w)) = (posts (trace w) + 1)%nat
    ∧ ∃ dest ok,
        trace (handleUpload env remote P w)
        = trace w
          ++ EQuery P
             :: replicate (length ts)
                  (ESleep (duration_or (CheckInterval remote) (5 * Second)))
          ++ [EHash P; EPost (upload_url remote) P; EExec P;
              EMkdirAll (Join (Dir P) ".done"); ERename P dest ok].
Proof.
  intros env remote P h w info ts rest Hf Hec Hnd Hticks Hlen Hall Hread Ha.
  destruct (untouched_run (threshold_of remote)
              (duration_or (CheckInterval remote) (5 * Second))
              (duration_or (StabilityTimeout remote) (30 * Minute))
              P info ts rest 0 (log (EQuery P) w) ltac:(lia) ltac:(lia) Hall)
    as (w1 & Eloop & Hfl & Hfi & Ht).
  assert (E : handleUpload env remote P w
              = onSuccess env P h (fi_mod info)
                  (extend [EHash P; EPost (upload_url remote) P] w1)).
  { unfold handleUpload. rewrite Hf.
    destruct (db.GetFileRecord (filelog w) P) as [[[st m] hh] ec]. cbn in Hec, Hnd.
    replace (10 <? ec) with false by (symmetry; apply Z.ltb_ge; lia).
    replace ((bool_decide (st = db.StatusUploaded)
              || bool_decide (st = db.StatusVerified)) && (m =? fi_mod info))
      with false.
    2:{ symmetry. apply not_true_is_false. intros Hb.
        apply andb_prop in Hb as [Hs Hm]. apply Hnd. split.
        - apply orb_prop in Hs as [Hs|Hs]; apply bool_decide_eq_true in Hs; auto.
        - by apply Z.eqb_eq. }
    rewrite Hticks, Eloop. unfold UploadFile.
    rewrite (Hfi Hf), Hread. cbn [attempts]. rewrite Ha.
    by rewrite !log_extend, extend_extend. }
  rewrite E.
  destruct (onSuccess_shape env P h (fi_mod info)
              (extend [EHash P; EPost (upload_url remote) P] w1))
    as (Hrec & dest & ok & Htr).
  split; [exact Hrec|].
  assert (Htrace : trace (onSuccess env P h (fi_mod info)
                            (extend [EHash P; EPost (upload_url remote) P] w1))
                   = trace w
                     ++ EQuery P
                        :: replicate (length ts)
                             (ESleep (duration_or (CheckInterval remote) (5 * Second)))
                     ++ [EHash P; EPost (upload_url remote) P; EExec P;
                         EMkdirAll (Join (Dir P) ".done"); ERename P dest ok]).
  { rewrite Htr. cbn [trace extend]. rewrite Ht. cbn [trace log].
    rewrite <- !app_assoc. cbn. reflexivity. }
  split; [|by exists dest, ok].
  rewrite Htrace, posts_app. cbn [posts]. 
  change (EQuery P :: ?l) with ([EQuery P] ++ l).
  rewrite !posts_app, posts_sleeps. cbn. lia.
Qed.

Lemma X26_happy_path_witness :
  db.GetFileRecord
    (filelog (handleUpload (sample.server 200 None [sample.quiet; sample.quiet])
                sample.R sample.a_pdf sample.fresh)) sample.a_pdf
  = ("VERIFIED", fi_mod sample.on_disk, sample.local_hash, 0).
Proof.
  refine (proj1 (X26_untouched_file_is_delivered
            (sample.server 200 None [sample.quiet; sample.quiet])
            sample.R sample.a_pdf sample.local_hash sample.fresh sample.on_disk
            [sample.quiet; sample.quiet] [] _ _ _ eq_refl eq_refl _ eq_refl eq_refl)).
  - vm_compute. reflexivity.
  - vm_compute. discriminate.
  - vm_compute. intros [[H|H] _]; discriminate H.
  - repeat constructor; vm_compute; discriminate.
Defined.

End WorkerProgress.
